(** * rust-types: the [Result] and [Option] containers of [mod.ts]

    A shallow embedding of the two classes of [src/mod.ts] and the proofs
    of the properties stated about them.

    JavaScript objects have identity, so objects live in a heap and values
    refer to them by address.  Methods that allocate or throw run in a
    small state-and-exception monad over the heap; methods that only read
    the fields of [this] are plain functions. *)

From stdpp Require Import base list strings.
From Stdlib Require Import ZArith Lia.

Local Open Scope string_scope.
Local Open Scope list_scope.

(* ===================================================================== *)
(** ** Values and objects *)
(* ===================================================================== *)

Definition addr := nat.

(** Runtime values: the primitives, and references to heap objects. *)
Inductive val : Type :=
| undefined
| null
| VBool (b : bool)
| VNum (n : Z)
| VStr (s : string)
| VRef (a : addr).

(** [const Never = undefined as never;] *)
Definition Never : val := undefined.

(** The fields of [class Result]: [type], [value], [error]. *)
Record Result : Type := mkResult {
  Result_type : string;
  Result_value : val;
  Result_error : val
}.

(** The fields of [class Option]: [type], [value]. *)
Record Option : Type := mkOption {
  Option_type : string;
  Option_value : val
}.

(** Heap objects: instances of the built-in [Error], of the two classes of
    the module, and any other object. *)
Inductive obj : Type :=
| OError (message : string)
| OResult (r : Result)
| OOption (o : Option)
| OPlain.

(** The heap is the list of the objects allocated so far; an address is an
    index in it. *)
Abbreviation heap := (list obj).

Definition val_eq_dec (x y : val) : {x = y} + {x <> y}.
Proof.
  decide equality;
    [ apply Bool.bool_dec | apply Z.eq_dec | apply String.string_dec
    | apply Nat.eq_dec ].
Defined.

(** [x === y] on the values above (numbers are integers here, so there is
    no NaN). *)
Definition strict_equal (x y : val) : bool :=
  if val_eq_dec x y then true else false.

(* ===================================================================== *)
(** ** The monad: heap state, exceptions, fuel *)
(* ===================================================================== *)

(** How a call ends: it returns, it throws a value, or the model ran out
    of recursion fuel. *)
Inductive completion (A : Type) : Type :=
| Normal (a : A)
| Throw (exn : val)
| Fuel.
Arguments Normal {A} a.
Arguments Throw {A} exn.
Arguments Fuel {A}.

Definition M (A : Type) : Type := heap -> completion A * heap.

Definition ret {A} (a : A) : M A := fun h => (Normal a, h).

Definition bind {A B} (m : M A) (k : A -> M B) : M B :=
  fun h =>
    match m h with
    | (Normal a, h') => k a h'
    | (Throw e, h') => (Throw e, h')
    | (Fuel, h') => (Fuel, h')
    end.

Notation "'let*' x ':=' m 'in' k" := (bind m (fun x => k))
  (at level 10, x name, m at level 100, k at level 200, only parsing).

(** [throw e] *)
Definition throw {A} (e : val) : M A := fun h => (Throw e, h).

Definition out_of_fuel {A} : M A := fun h => (Fuel, h).

(** [new C(...)]: the object is stored at the next free address. *)
Definition alloc (o : obj) : M val :=
  fun h => (Normal (VRef (length h)), (h ++ [o])).

(** [new Error(message)] *)
Definition new_Error (message : string) : M val := alloc (OError message).

(** A parameter with a default, [p = d]: the default is taken when the
    argument is missing or [undefined]. *)
Definition default_param (arg d : val) : val :=
  match arg with
  | undefined => d
  | _ => arg
  end.

(** The object a value refers to, when it is an instance of the class. *)
Definition as_Result (h : heap) (v : val) : option Result :=
  match v with
  | VRef a => match h !! a with
              | Some (OResult r) => Some r
              | _ => None
              end
  | _ => None
  end.

Definition as_Option (h : heap) (v : val) : option Option :=
  match v with
  | VRef a => match h !! a with
              | Some (OOption o) => Some o
              | _ => None
              end
  | _ => None
  end.

(** [v instanceof Result], [v instanceof Option] *)
Definition instanceof_Result (v : val) : M (option Result) :=
  fun h => (Normal (as_Result h v), h).

Definition instanceof_Option (v : val) : M (option Option) :=
  fun h => (Normal (as_Option h v), h).

(* ===================================================================== *)
(** ** class Result *)
(* ===================================================================== *)

(** [private constructor(type, value = Never, error = Never)] *)
Definition Result_constructor (type : string) (value error : val) : Result :=
  {| Result_type := type;
     Result_value := default_param value Never;
     Result_error := default_param error Never |}.

Definition new_Result (type : string) (value error : val) : M val :=
  alloc (OResult (Result_constructor type value error)).

(** [static ok(value) { return new Result("ok", value); }] *)
Definition Result_ok (value : val) : M val :=
  new_Result "ok" value undefined.

(** [static err(error) { return new Result("error", Never, error); }] *)
Definition Result_err (error : val) : M val :=
  new_Result "error" Never error.

(** [isOk() { return this.type === "ok"; }] *)
Definition Result_isOk (this : Result) : bool :=
  String.eqb (Result_type this) "ok".

(** [isErr() { return this.type === "error"; }] *)
Definition Result_isErr (this : Result) : bool :=
  String.eqb (Result_type this) "error".

(** [unwrap() { if (this.isOk()) { return this.value; } throw this.error; }] *)
Definition Result_unwrap (this : Result) : M val :=
  if Result_isOk this then ret (Result_value this)
  else throw (Result_error this).

(** [unwrapOr(fallbackValue) { return this.isOk() ? this.value : fallbackValue; }] *)
Definition Result_unwrapOr (this : Result) (fallbackValue : val) : val :=
  if Result_isOk this then Result_value this else fallbackValue.

(** [unwrapErr() { if (this.isErr()) { return this.error; }
                   throw new Error("Cannot unwrapErr an Ok result"); }] *)
Definition Result_unwrapErr (this : Result) : M val :=
  if Result_isErr this then ret (Result_error this)
  else
    let* e := new_Error "Cannot unwrapErr an Ok result" in
    throw e.

(** [map(fn) { return this.isOk() ? Result.ok(fn(this.value))
                                  : Result.err(this.error); }] *)
Definition Result_map (fn : val -> M val) (this : Result) : M val :=
  if Result_isOk this then
    let* u := fn (Result_value this) in
    Result_ok u
  else Result_err (Result_error this).

(** [mapErr(fn) { return this.isErr() ? Result.err(fn(this.error))
                                      : Result.ok(this.value); }] *)
Definition Result_mapErr (fn : val -> M val) (this : Result) : M val :=
  if Result_isErr this then
    let* f := fn (Result_error this) in
    Result_err f
  else Result_ok (Result_value this).

(* ===================================================================== *)
(** ** class Option *)
(* ===================================================================== *)

(** [private constructor(type, value = Never)] *)
Definition Option_constructor (type : string) (value : val) : Option :=
  {| Option_type := type;
     Option_value := default_param value Never |}.

Definition new_Option (type : string) (value : val) : M val :=
  alloc (OOption (Option_constructor type value)).

(** [static some(value) { return new Option("some", value); }] *)
Definition Option_some (value : val) : M val :=
  new_Option "some" value.

(** [static none() { return new Option("none"); }] *)
Definition Option_none : M val :=
  new_Option "none" undefined.

(** [static from(maybe) { return maybe === undefined || maybe === null
                            ? Option.none() : Option.some(maybe); }] *)
Definition Option_from (maybe : val) : M val :=
  if strict_equal maybe undefined || strict_equal maybe null
  then Option_none
  else Option_some maybe.

(** [isSome() { return this.type === "some"; }] *)
Definition Option_isSome (this : Option) : bool :=
  String.eqb (Option_type this) "some".

(** [isNone() { return this.type === "none"; }] *)
Definition Option_isNone (this : Option) : bool :=
  String.eqb (Option_type this) "none".

(** [unwrap() { if (this.isSome()) { return this.value; }
                throw new Error("Cannot unwrap a None option"); }] *)
Definition Option_unwrap (this : Option) : M val :=
  if Option_isSome this then ret (Option_value this)
  else
    let* e := new_Error "Cannot unwrap a None option" in
    throw e.

(** [unwrapOr(fallbackValue) { return this.isSome() ? this.value : fallbackValue; }] *)
Definition Option_unwrapOr (this : Option) (fallbackValue : val) : val :=
  if Option_isSome this then Option_value this else fallbackValue.

(** [map(fn) { return this.isSome() ? Option.some(fn(this.value))
                                    : Option.none(); }] *)
Definition Option_map (fn : val -> M val) (this : Option) : M val :=
  if Option_isSome this then
    let* u := fn (Option_value this) in
    Option_some u
  else Option_none.

(* ===================================================================== *)
(** ** unwrapDeep, on both classes *)
(* ===================================================================== *)

(** The two methods call each other; the recursion is on the fuel, one
    unit per call.

    [unwrapDeep() {
       const value = this.unwrap();
       if (value instanceof Result) { return value.unwrapDeep(); }
       if (value instanceof Option) { return value.unwrapDeep(); }
       return value;
     }] *)
Fixpoint Result_unwrapDeep (fuel : nat) (this : Result) {struct fuel} : M val :=
  match fuel with
  | O => out_of_fuel
  | S fuel' =>
      let* value := Result_unwrap this in
      let* r := instanceof_Result value in
      match r with
      | Some inner => Result_unwrapDeep fuel' inner
      | None =>
          let* o := instanceof_Option value in
          match o with
          | Some inner => Option_unwrapDeep fuel' inner
          | None => ret value
          end
      end
  end
with Option_unwrapDeep (fuel : nat) (this : Option) {struct fuel} : M val :=
  match fuel with
  | O => out_of_fuel
  | S fuel' =>
      let* value := Option_unwrap this in
      let* r := instanceof_Result value in
      match r with
      | Some inner => Result_unwrapDeep fuel' inner
      | None =>
          let* o := instanceof_Option value in
          match o with
          | Some inner => Option_unwrapDeep fuel' inner
          | None => ret value
          end
      end
  end.

(* ===================================================================== *)
(** ** Promises and Result.fromPromise *)
(* ===================================================================== *)

(** A promise is taken by how it settles: fulfilled with a value, rejected
    with a reason, or never settled.  No value above is a thenable, so a
    handler's return value fulfils the derived promise as it is. *)
Inductive Promise : Type :=
| Fulfilled (v : val)
| Rejected (reason : val)
| Pending.

(** The promise derived by running a handler on the settled value. *)
Definition settle_with (handler : val -> M val) (x : val) : M Promise :=
  fun h =>
    match handler x h with
    | (Normal r, h') => (Normal (Fulfilled r), h')
    | (Throw e, h') => (Normal (Rejected e), h')
    | (Fuel, h') => (Fuel, h')
    end.

(** [promise.then(onFulfilled)] *)
Definition Promise_then (promise : Promise) (onFulfilled : val -> M val)
  : M Promise :=
  match promise with
  | Fulfilled v => settle_with onFulfilled v
  | Rejected e => ret (Rejected e)
  | Pending => ret Pending
  end.

(** [promise.catch(onRejected)] *)
Definition Promise_catch (promise : Promise) (onRejected : val -> M val)
  : M Promise :=
  match promise with
  | Fulfilled v => ret (Fulfilled v)
  | Rejected e => settle_with onRejected e
  | Pending => ret Pending
  end.

(** [static fromPromise(promise) {
       return promise.then(Result.ok).catch(Result.err); }] *)
Definition Result_fromPromise (promise : Promise) : M Promise :=
  let* p := Promise_then promise Result_ok in
  Promise_catch p Result_err.

(* ===================================================================== *)
(** ** Method calls on references, and programs used in the statements *)
(* ===================================================================== *)

(** [recv.method()] where the method belongs to [class Result]: the fields
    of [this] are read from the heap.  On any other receiver the call is a
    [TypeError]. *)
Definition Result_call {A} (recv : val) (method : Result -> M A) : M A :=
  let* r := instanceof_Result recv in
  match r with
  | Some this => method this
  | None => let* e := new_Error "TypeError" in throw e
  end.

Definition Option_call {A} (recv : val) (method : Option -> M A) : M A :=
  let* o := instanceof_Option recv in
  match o with
  | Some this => method this
  | None => let* e := new_Error "TypeError" in throw e
  end.

(** [recv.unwrapDeep()] on a receiver of either class. *)
Definition unwrapDeep (fuel : nat) (recv : val) : M val :=
  let* r := instanceof_Result recv in
  match r with
  | Some this => Result_unwrapDeep fuel this
  | None => Option_call recv (Option_unwrapDeep fuel)
  end.

(** [x => x] *)
Definition identity_fn (x : val) : M val := ret x.

(** A nesting of [Ok] and [Some] layers around a payload, built from the
    inside out as an expression such as
    [Result.ok(Result.ok(Option.some(5)))] is evaluated. *)
Inductive layer : Type := InResult | InOption.

Definition wrap (l : layer) (v : val) : M val :=
  match l with
  | InResult => Result_ok v
  | InOption => Option_some v
  end.

Fixpoint nest (ls : list layer) (v : val) : M val :=
  match ls with
  | [] => ret v
  | l :: ls' => let* inner := nest ls' v in wrap l inner
  end.

(** What [unwrapDeep] does with the payload once [unwrap] has returned it:
    the two [instanceof] tests and the recursive call. *)
Definition deepen (fuel : nat) (value : val) : M val :=
  let* r := instanceof_Result value in
  match r with
  | Some inner => Result_unwrapDeep fuel inner
  | None =>
      let* o := instanceof_Option value in
      match o with
      | Some inner => Option_unwrapDeep fuel inner
      | None => ret value
      end
  end.

(** [await promise]: the value when fulfilled, the reason thrown when
    rejected; on a promise that never settles the caller is never resumed. *)
Definition await (promise : Promise) : M val :=
  match promise with
  | Fulfilled v => ret v
  | Rejected e => throw e
  | Pending => out_of_fuel
  end.


(* ===================================================================== *)
(** ** Well-formed heaps *)
(* ===================================================================== *)

(** A value of a heap of [n] objects: a primitive, or a reference to one of
    the [n] objects. *)
Definition val_below (n : nat) (v : val) : Prop :=
  match v with
  | VRef a => a < n
  | _ => True
  end.

Definition val_in_heap (h : heap) (v : val) : Prop := val_below (length h) v.

(** The fields of an object refer below [n]. *)
Definition obj_below (n : nat) (o : obj) : Prop :=
  match o with
  | OResult r => val_below n (Result_value r) /\ val_below n (Result_error r)
  | OOption o => val_below n (Option_value o)
  | OError _ | OPlain => True
  end.

(** Objects are immutable and built from values that exist already, so
    every object refers only to objects allocated before it. *)
Definition bottom_up (h : heap) : Prop :=
  forall a o, h !! a = Some o -> obj_below a o.

(** The [Result] objects the class can build: its constructor is private,
    so every instance comes from [ok] or from [err]. *)
Definition Result_built (this : Result) : Prop :=
  (exists v, this = Result_constructor "ok" v undefined) \/
  (exists e, this = Result_constructor "error" Never e).

(** Every [Result] of the heap is one the class can build. *)
Definition Results_built (h : heap) : Prop :=
  forall a r, h !! a = Some (OResult r) -> Result_built r.

(** A value that is neither a [Result] nor an [Option]. *)
Definition not_container (h : heap) (v : val) : Prop :=
  as_Result h v = None /\ as_Option h v = None.

(** The call returns (it neither throws nor runs out of fuel). *)
Definition returns {A} (m : M A) (h : heap) : Prop :=
  exists a h', m h = (Normal a, h').

(** A callback that never throws. *)
Definition never_throws (fn : val -> M val) : Prop :=
  forall x h, returns (fn x) h.

(** The [Option] objects the class can build, through [some] and [none]. *)
Definition Option_built (this : Option) : Prop :=
  (exists v, this = Option_constructor "some" v) \/
  this = Option_constructor "none" undefined.

(** A callback without effects: it computes its result from its argument
    and neither allocates nor throws. *)
Definition pure_fn (f : val -> val) (x : val) : M val := ret (f x).

(** The call leaves every object of the heap as it is: the heap it ends
    with is the heap it started from, followed by what it allocated. *)
Definition only_allocates {A} (m : M A) : Prop :=
  forall h, h `prefix_of` snd (m h).

(** After the call the heap is bottom-up and what the call returned or
    threw is a value of it. *)
Definition well_formed_after (m : M val) (h : heap) : Prop :=
  bottom_up (snd (m h)) /\
  match fst (m h) with
  | Normal u | Throw u => val_in_heap (snd (m h)) u
  | Fuel => True
  end.

(** A container of either class. *)
Inductive container : Type :=
| CResult (r : Result)
| COption (o : Option).

(** The container a value refers to, tested as [unwrapDeep] tests it:
    [instanceof Result] first, [instanceof Option] second. *)
Definition as_container (h : heap) (v : val) : option container :=
  match as_Result h v with
  | Some r => Some (CResult r)
  | None => match as_Option h v with
            | Some o => Some (COption o)
            | None => None
            end
  end.

(** [c.unwrap()] and [c.unwrapDeep()] on a container of either class. *)
Definition container_unwrap (c : container) : M val :=
  match c with
  | CResult r => Result_unwrap r
  | COption o => Option_unwrap o
  end.

Definition container_unwrapDeep (fuel : nat) (c : container) : M val :=
  match c with
  | CResult r => Result_unwrapDeep fuel r
  | COption o => Option_unwrapDeep fuel o
  end.

(** The layers of a nesting, from a container inwards: the container
    itself, and every layer of the container that its [unwrap()] returns.
    A layer is listed only when the [unwrap()] of every layer above it
    returns, which is how far [unwrapDeep] gets. *)
Inductive layer_of (h : heap) : container -> container -> Prop :=
| layer_outer c : layer_of h c c
| layer_under c v inner c' :
    container_unwrap c h = (Normal v, h) ->
    as_container h v = Some inner ->
    layer_of h inner c' ->
    layer_of h c c'.

(* ===================================================================== *)
(** ** Basic facts about the monad and the heap *)
(* ===================================================================== *)

Lemma bind_Normal {A B} (m : M A) (k : A -> M B) h a h' :
  m h = (Normal a, h') -> bind m k h = k a h'.
Proof. intros E. unfold bind. rewrite E. reflexivity. Qed.

Lemma bind_Throw {A B} (m : M A) (k : A -> M B) h e h' :
  m h = (Throw e, h') -> bind m k h = (Throw e, h').
Proof. intros E. unfold bind. rewrite E. reflexivity. Qed.

Lemma default_param_Never v : default_param v Never = v.
Proof. destruct v; reflexivity. Qed.

Lemma lookup_alloc (h : heap) (o : obj) : (h ++ [o]) !! length h = Some o.
Proof. apply list_lookup_middle. reflexivity. Qed.

Lemma lookup_fresh (h : heap) : h !! length h = None.
Proof. apply lookup_ge_None. lia. Qed.

Lemma as_Result_alloc h r :
  as_Result (h ++ [OResult r]) (VRef (length h)) = Some r.
Proof. unfold as_Result. rewrite lookup_alloc. reflexivity. Qed.

Lemma as_Option_alloc h o :
  as_Option (h ++ [OOption o]) (VRef (length h)) = Some o.
Proof. unfold as_Option. rewrite lookup_alloc. reflexivity. Qed.

Lemma as_Result_alloc_Option h o :
  as_Result (h ++ [OOption o]) (VRef (length h)) = None.
Proof. unfold as_Result. rewrite lookup_alloc. reflexivity. Qed.

Lemma Result_ok_run v h :
  Result_ok v h =
  (Normal (VRef (length h)), (h ++ [OResult (mkResult "ok" v undefined)])).
Proof.
  unfold Result_ok, new_Result, alloc, Result_constructor.
  rewrite !default_param_Never. reflexivity.
Qed.

Lemma Result_err_run e h :
  Result_err e h =
  (Normal (VRef (length h)), (h ++ [OResult (mkResult "error" undefined e)])).
Proof.
  unfold Result_err, new_Result, alloc, Result_constructor.
  rewrite !default_param_Never. reflexivity.
Qed.

Lemma Option_some_run v h :
  Option_some v h =
  (Normal (VRef (length h)), (h ++ [OOption (mkOption "some" v)])).
Proof.
  unfold Option_some, new_Option, alloc, Option_constructor.
  rewrite !default_param_Never. reflexivity.
Qed.

Lemma Option_none_run h :
  Option_none h =
  (Normal (VRef (length h)), (h ++ [OOption (mkOption "none" undefined)])).
Proof. reflexivity. Qed.

Lemma Result_call_alloc {A} (method : Result -> M A) h r :
  Result_call (VRef (length h)) method (h ++ [OResult r])
  = method r (h ++ [OResult r]).
Proof.
  unfold Result_call, bind, instanceof_Result.
  rewrite as_Result_alloc. reflexivity.
Qed.

Lemma Option_call_alloc {A} (method : Option -> M A) h o :
  Option_call (VRef (length h)) method (h ++ [OOption o])
  = method o (h ++ [OOption o]).
Proof.
  unfold Option_call, bind, instanceof_Option.
  rewrite as_Option_alloc. reflexivity.
Qed.

(* ===================================================================== *)
(** ** Facts about unwrapDeep *)
(* ===================================================================== *)

Lemma Result_unwrapDeep_S fuel this :
  Result_unwrapDeep (S fuel) this
  = (let* value := Result_unwrap this in deepen fuel value).
Proof. reflexivity. Qed.

Lemma Option_unwrapDeep_S fuel this :
  Option_unwrapDeep (S fuel) this
  = (let* value := Option_unwrap this in deepen fuel value).
Proof. reflexivity. Qed.

Lemma Result_unwrap_cases this h :
  (Result_isOk this = true /\
   Result_unwrap this h = (Normal (Result_value this), h)) \/
  (Result_isOk this = false /\
   Result_unwrap this h = (Throw (Result_error this), h)).
Proof. unfold Result_unwrap. destruct (Result_isOk this); auto. Qed.

Lemma Option_unwrap_cases this h :
  (Option_isSome this = true /\
   Option_unwrap this h = (Normal (Option_value this), h)) \/
  (Option_isSome this = false /\
   Option_unwrap this h =
   (Throw (VRef (length h)), h ++ [OError "Cannot unwrap a None option"])).
Proof. unfold Option_unwrap. destruct (Option_isSome this); auto. Qed.

Lemma deepen_cases fuel value h :
  (exists inner, as_Result h value = Some inner /\
                 deepen fuel value h = Result_unwrapDeep fuel inner h) \/
  (exists inner, as_Result h value = None /\ as_Option h value = Some inner /\
                 deepen fuel value h = Option_unwrapDeep fuel inner h) \/
  (not_container h value /\ deepen fuel value h = (Normal value, h)).
Proof.
  unfold deepen, bind, instanceof_Result, instanceof_Option, not_container.
  destruct (as_Result h value) as [r|] eqn:ER.
  - left. eauto.
  - right. destruct (as_Option h value) as [o|] eqn:EO.
    + left. eauto.
    + right. auto.
Qed.

(** A call that returns leaves the heap as it was, and what it returns is
    not a container. *)
Lemma unwrapDeep_Normal fuel :
  (forall this h v h',
      Result_unwrapDeep fuel this h = (Normal v, h') ->
      h' = h /\ not_container h v) /\
  (forall this h v h',
      Option_unwrapDeep fuel this h = (Normal v, h') ->
      h' = h /\ not_container h v).
Proof.
  induction fuel as [|fuel [IHr IHo]].
  - split; intros this h v h' E; discriminate E.
  - assert (D : forall value h v h',
               deepen fuel value h = (Normal v, h') ->
               h' = h /\ not_container h v).
    { intros value h v h' E.
      destruct (deepen_cases fuel value h)
        as [(r & _ & Er) | [(o & _ & _ & Eo) | (NC & En)]].
      - rewrite Er in E. eauto.
      - rewrite Eo in E. eauto.
      - rewrite En in E. injection E as <- <-. auto. }
    split; intros this h v h' E.
    + rewrite Result_unwrapDeep_S in E.
      destruct (Result_unwrap_cases this h) as [[_ U] | [_ U]].
      * rewrite (bind_Normal _ _ _ _ _ U) in E. eauto.
      * rewrite (bind_Throw _ _ _ _ _ U) in E. discriminate E.
    + rewrite Option_unwrapDeep_S in E.
      destruct (Option_unwrap_cases this h) as [[_ U] | [_ U]].
      * rewrite (bind_Normal _ _ _ _ _ U) in E. eauto.
      * rewrite (bind_Throw _ _ _ _ _ U) in E. discriminate E.
Qed.

Lemma as_Result_in_heap h c r : as_Result h c = Some r -> val_in_heap h c.
Proof.
  destruct c as [| | | | |a]; simpl; try discriminate.
  destruct (h !! a) as [o|] eqn:E; [|discriminate].
  intros _. apply lookup_lt_Some in E. exact E.
Qed.

Lemma as_Option_in_heap h c o : as_Option h c = Some o -> val_in_heap h c.
Proof.
  destruct c as [| | | | |a]; simpl; try discriminate.
  destruct (h !! a) as [x|] eqn:E; [|discriminate].
  intros _. apply lookup_lt_Some in E. exact E.
Qed.

Lemma as_Result_ext h ext c :
  val_in_heap h c -> as_Result (h ++ ext) c = as_Result h c.
Proof.
  destruct c as [| | | | |a]; try reflexivity.
  intros Ha. unfold as_Result. rewrite lookup_app_l by exact Ha. reflexivity.
Qed.

Lemma as_Option_ext h ext c :
  val_in_heap h c -> as_Option (h ++ ext) c = as_Option h c.
Proof.
  destruct c as [| | | | |a]; try reflexivity.
  intros Ha. unfold as_Option. rewrite lookup_app_l by exact Ha. reflexivity.
Qed.

Lemma val_in_heap_ext h ext v : val_in_heap h v -> val_in_heap (h ++ ext) v.
Proof.
  destruct v; simpl; auto. unfold val_in_heap. simpl.
  rewrite length_app. lia.
Qed.

Lemma not_container_ext h ext v :
  val_in_heap h v -> not_container h v -> not_container (h ++ ext) v.
Proof.
  intros Hv [NR NO]. split.
  - rewrite as_Result_ext by exact Hv. exact NR.
  - rewrite as_Option_ext by exact Hv. exact NO.
Qed.

(** What [deepen] does is decided by the class of the payload. *)
Lemma deepen_Result fuel value h inner :
  as_Result h value = Some inner ->
  deepen fuel value h = Result_unwrapDeep fuel inner h.
Proof.
  intros E. unfold deepen, bind, instanceof_Result. rewrite E. reflexivity.
Qed.

Lemma deepen_Option fuel value h inner :
  as_Result h value = None -> as_Option h value = Some inner ->
  deepen fuel value h = Option_unwrapDeep fuel inner h.
Proof.
  intros ER EO. unfold deepen, bind, instanceof_Result, instanceof_Option.
  rewrite ER, EO. reflexivity.
Qed.

Lemma deepen_value fuel value h :
  not_container h value -> deepen fuel value h = (Normal value, h).
Proof.
  intros [ER EO]. unfold deepen, bind, instanceof_Result, instanceof_Option.
  rewrite ER, EO. reflexivity.
Qed.

(** A call that returns a value of the heap returns the same on every
    larger heap. *)
Lemma unwrapDeep_frame fuel :
  (forall this h v ext,
      Result_unwrapDeep fuel this h = (Normal v, h) -> val_in_heap h v ->
      Result_unwrapDeep fuel this (h ++ ext) = (Normal v, h ++ ext)) /\
  (forall this h v ext,
      Option_unwrapDeep fuel this h = (Normal v, h) -> val_in_heap h v ->
      Option_unwrapDeep fuel this (h ++ ext) = (Normal v, h ++ ext)).
Proof.
  induction fuel as [|fuel [IHr IHo]].
  - split; intros this h v ext E; discriminate E.
  - assert (D : forall value h v ext,
               deepen fuel value h = (Normal v, h) -> val_in_heap h v ->
               deepen fuel value (h ++ ext) = (Normal v, h ++ ext)).
    { intros value h v ext E Hv.
      destruct (deepen_cases fuel value h)
        as [(r & Ar & Er) | [(o & Ar & Ao & Eo) | (NC & En)]].
      - rewrite Er in E.
        rewrite (deepen_Result _ _ _ r).
        + apply IHr; assumption.
        + rewrite as_Result_ext; eauto using as_Result_in_heap.
      - rewrite Eo in E.
        rewrite (deepen_Option _ _ _ o).
        + apply IHo; assumption.
        + rewrite as_Result_ext; eauto using as_Option_in_heap.
        + rewrite as_Option_ext; eauto using as_Option_in_heap.
      - rewrite En in E. injection E as <-.
        apply deepen_value. apply not_container_ext; assumption. }
    split; intros this h v ext E Hv.
    + rewrite Result_unwrapDeep_S in *.
      destruct (Result_unwrap_cases this h) as [[I U] | [_ U]].
      * rewrite (bind_Normal _ _ _ _ _ U) in E.
        unfold bind, Result_unwrap, ret. rewrite I. eauto.
      * rewrite (bind_Throw _ _ _ _ _ U) in E. discriminate E.
    + rewrite Option_unwrapDeep_S in *.
      destruct (Option_unwrap_cases this h) as [[I U] | [_ U]].
      * rewrite (bind_Normal _ _ _ _ _ U) in E.
        unfold bind, Option_unwrap, ret. rewrite I. eauto.
      * rewrite (bind_Throw _ _ _ _ _ U) in E. discriminate E.
Qed.

(** Fuel is only a bound of the model: once a call ends with some fuel, it
    ends the same way with any more. *)
Lemma unwrapDeep_fuel_mono fuel :
  (forall this h out h' fuel',
      Result_unwrapDeep fuel this h = (out, h') -> out <> Fuel ->
      fuel <= fuel' -> Result_unwrapDeep fuel' this h = (out, h')) /\
  (forall this h out h' fuel',
      Option_unwrapDeep fuel this h = (out, h') -> out <> Fuel ->
      fuel <= fuel' -> Option_unwrapDeep fuel' this h = (out, h')).
Proof.
  induction fuel as [|fuel [IHr IHo]].
  - split; intros this h out h' fuel' E NF; injection E as <- <-;
      contradiction NF; reflexivity.
  - assert (D : forall value h out h' fuel',
               deepen fuel value h = (out, h') -> out <> Fuel ->
               fuel <= fuel' -> deepen fuel' value h = (out, h')).
    { intros value h out h' fuel' E NF Hle.
      destruct (deepen_cases fuel value h)
        as [(r & Ar & Er) | [(o & Ar & Ao & Eo) | (NC & En)]].
      - rewrite Er in E. rewrite (deepen_Result _ _ _ r Ar). eauto.
      - rewrite Eo in E. rewrite (deepen_Option _ _ _ o Ar Ao). eauto.
      - rewrite En in E. rewrite (deepen_value _ _ _ NC). exact E. }
    split; intros this h out h' fuel' E NF Hle;
      (destruct fuel' as [|fuel']; [lia|]).
    + rewrite Result_unwrapDeep_S in *.
      destruct (Result_unwrap_cases this h) as [[_ U] | [_ U]].
      * rewrite (bind_Normal _ _ _ _ _ U) in E.
        rewrite (bind_Normal _ _ _ _ _ U). apply (D _ _ _ _ _ E NF). lia.
      * rewrite (bind_Throw _ _ _ _ _ U) in E.
        rewrite (bind_Throw _ _ _ _ _ U). exact E.
    + rewrite Option_unwrapDeep_S in *.
      destruct (Option_unwrap_cases this h) as [[_ U] | [_ U]].
      * rewrite (bind_Normal _ _ _ _ _ U) in E.
        rewrite (bind_Normal _ _ _ _ _ U). apply (D _ _ _ _ _ E NF). lia.
      * rewrite (bind_Throw _ _ _ _ _ U) in E.
        rewrite (bind_Throw _ _ _ _ _ U). exact E.
Qed.

(* ===================================================================== *)
(** ** Heaps built bottom-up *)
(* ===================================================================== *)

Lemma bottom_up_nil : bottom_up [].
Proof. intros a o E. rewrite lookup_nil in E. discriminate E. Qed.

Lemma bottom_up_alloc h o :
  bottom_up h -> obj_below (length h) o -> bottom_up (h ++ [o]).
Proof.
  intros B Ho a x E.
  destruct (Nat.lt_ge_cases a (length h)) as [Hlt | Hge].
  - rewrite lookup_app_l in E by exact Hlt. eauto.
  - assert (a = length h) as ->.
    { apply lookup_lt_Some in E. rewrite length_app in E. simpl in E. lia. }
    rewrite lookup_alloc in E. injection E as <-. exact Ho.
Qed.

(** The constructors keep the heap bottom-up. *)
Lemma Result_ok_bottom_up v h :
  bottom_up h -> val_in_heap h v -> bottom_up (snd (Result_ok v h)).
Proof.
  intros B Hv. rewrite Result_ok_run. apply bottom_up_alloc; [exact B|].
  simpl. split; [exact Hv | exact I].
Qed.

Lemma Result_err_bottom_up e h :
  bottom_up h -> val_in_heap h e -> bottom_up (snd (Result_err e h)).
Proof.
  intros B He. rewrite Result_err_run. apply bottom_up_alloc; [exact B|].
  simpl. split; [exact I | exact He].
Qed.

Lemma Option_some_bottom_up v h :
  bottom_up h -> val_in_heap h v -> bottom_up (snd (Option_some v h)).
Proof.
  intros B Hv. rewrite Option_some_run. apply bottom_up_alloc; [exact B|].
  exact Hv.
Qed.

Lemma Option_none_bottom_up h :
  bottom_up h -> bottom_up (snd (Option_none h)).
Proof.
  intros B. rewrite Option_none_run. apply bottom_up_alloc; [exact B|].
  exact I.
Qed.

Lemma as_Result_lookup h c r :
  as_Result h c = Some r -> exists a, c = VRef a /\ h !! a = Some (OResult r).
Proof.
  destruct c as [| | | | |a]; simpl; try discriminate.
  destruct (h !! a) as [[| r' | |]|] eqn:E; try discriminate.
  intros [= <-]. eauto.
Qed.

Lemma as_Option_lookup h c o :
  as_Option h c = Some o -> exists a, c = VRef a /\ h !! a = Some (OOption o).
Proof.
  destruct c as [| | | | |a]; simpl; try discriminate.
  destruct (h !! a) as [[| | o' |]|] eqn:E; try discriminate.
  intros [= <-]. eauto.
Qed.

(** On a bottom-up heap the container at address [a] is unwrapped within
    [a + 1] calls. *)
Lemma unwrapDeep_enough_fuel h :
  bottom_up h ->
  forall fuel,
    (forall a this, h !! a = Some (OResult this) -> a < fuel ->
                    fst (Result_unwrapDeep fuel this h) <> Fuel) /\
    (forall a this, h !! a = Some (OOption this) -> a < fuel ->
                    fst (Option_unwrapDeep fuel this h) <> Fuel).
Proof.
  intros B. induction fuel as [|fuel [IHr IHo]].
  - split; intros; lia.
  - assert (D : forall a value, val_below a value -> a < S fuel ->
                                fst (deepen fuel value h) <> Fuel).
    { intros a value Hb Hlt.
      destruct (deepen_cases fuel value h)
        as [(r & Ar & ->) | [(o & _ & Ao & ->) | (_ & ->)]].
      - apply as_Result_lookup in Ar as (a' & -> & L).
        apply (IHr a'); [exact L | simpl in Hb; lia].
      - apply as_Option_lookup in Ao as (a' & -> & L).
        apply (IHo a'); [exact L | simpl in Hb; lia].
      - discriminate. }
    split; intros a this L Hlt.
    + rewrite Result_unwrapDeep_S.
      destruct (Result_unwrap_cases this h) as [[_ U] | [_ U]].
      * rewrite (bind_Normal _ _ _ _ _ U).
        apply (D a); [|exact Hlt]. apply (B a _ L).
      * rewrite (bind_Throw _ _ _ _ _ U). discriminate.
    + rewrite Option_unwrapDeep_S.
      destruct (Option_unwrap_cases this h) as [[_ U] | [_ U]].
      * rewrite (bind_Normal _ _ _ _ _ U).
        apply (D a); [|exact Hlt]. apply (B a _ L).
      * rewrite (bind_Throw _ _ _ _ _ U). discriminate.
Qed.

Lemma deepen_container fuel value h c :
  as_container h value = Some c ->
  deepen fuel value h = container_unwrapDeep fuel c h.
Proof.
  unfold as_container. intros E.
  destruct (as_Result h value) as [r|] eqn:ER.
  - injection E as <-. apply deepen_Result. exact ER.
  - destruct (as_Option h value) as [o|] eqn:EO; [|discriminate E].
    injection E as <-. apply deepen_Option; assumption.
Qed.

Lemma container_unwrapDeep_S fuel c :
  container_unwrapDeep (S fuel) c
  = (let* value := container_unwrap c in deepen fuel value).
Proof. destruct c; reflexivity. Qed.

Lemma container_unwrap_cases c h :
  (exists v, container_unwrap c h = (Normal v, h)) \/
  (exists e h', container_unwrap c h = (Throw e, h')).
Proof.
  destruct c as [r | o]; simpl.
  - destruct (Result_unwrap_cases r h) as [[_ U] | [_ U]]; eauto.
  - destruct (Option_unwrap_cases o h) as [[_ U] | [_ U]]; eauto.
Qed.

(** When [unwrapDeep] throws, a layer of the receiver threw: the
    [unwrap()] of that layer, called on the same heap, throws the same
    value and leaves the same heap. *)
Lemma unwrapDeep_Throw_layer fuel :
  forall c h e h',
    container_unwrapDeep fuel c h = (Throw e, h') ->
    exists c', layer_of h c c' /\ container_unwrap c' h = (Throw e, h').
Proof.
  induction fuel as [|fuel IH]; intros c h e h' E.
  - destruct c; discriminate E.
  - rewrite container_unwrapDeep_S in E.
    destruct (container_unwrap_cases c h) as [[v U] | (x & hx & U)].
    + rewrite (bind_Normal _ _ _ _ _ U) in E.
      destruct (as_container h v) as [inner|] eqn:EC.
      * rewrite (deepen_container _ _ _ _ EC) in E.
        destruct (IH inner h e h' E) as (c' & L & T).
        exists c'. split; [|exact T].
        exact (layer_under h c v inner c' U EC L).
      * assert (NC : not_container h v).
        { unfold as_container in EC.
          destruct (as_Result h v) eqn:ER; [discriminate EC|].
          destruct (as_Option h v) eqn:EO; [discriminate EC|].
          split; assumption. }
        rewrite (deepen_value _ _ _ NC) in E. discriminate E.
    + rewrite (bind_Throw _ _ _ _ _ U) in E. injection E as <- <-.
      exists c. split; [apply layer_outer | exact U].
Qed.

(** Conversely, when the [unwrap()] of a layer throws, [unwrapDeep] on the
    outermost container throws the same value. *)
Lemma layer_Throw_unwrapDeep h c c' :
  layer_of h c c' ->
  forall e h',
    container_unwrap c' h = (Throw e, h') ->
    exists fuel0,
      forall fuel, fuel0 <= fuel ->
                   container_unwrapDeep fuel c h = (Throw e, h').
Proof.
  induction 1 as [c | c v inner c' U EC L IH]; intros e h' T.
  - exists 1. intros [|fuel] Hf; [lia|].
    rewrite container_unwrapDeep_S. apply bind_Throw. exact T.
  - destruct (IH e h' T) as (fuel0 & Hd).
    exists (S fuel0). intros [|fuel] Hf; [lia|].
    rewrite container_unwrapDeep_S. rewrite (bind_Normal _ _ _ _ _ U).
    rewrite (deepen_container _ _ _ _ EC). apply Hd. lia.
Qed.

Lemma deepen_frame fuel value h v ext :
  deepen fuel value h = (Normal v, h) -> val_in_heap h v ->
  deepen fuel value (h ++ ext) = (Normal v, h ++ ext).
Proof.
  intros E Hv. destruct (unwrapDeep_frame fuel) as [Fr Fo].
  destruct (deepen_cases fuel value h)
    as [(r & Ar & Er) | [(o & Ar & Ao & Eo) | (NC & En)]].
  - rewrite Er in E. rewrite (deepen_Result _ _ _ r).
    + apply Fr; assumption.
    + rewrite as_Result_ext; eauto using as_Result_in_heap.
  - rewrite Eo in E. rewrite (deepen_Option _ _ _ o).
    + apply Fo; assumption.
    + rewrite as_Result_ext; eauto using as_Option_in_heap.
    + rewrite as_Option_ext; eauto using as_Option_in_heap.
  - rewrite En in E. injection E as <-.
    apply deepen_value. apply not_container_ext; assumption.
Qed.

(** [recv.unwrapDeep()] on a container is [deepen] on it. *)
Lemma unwrapDeep_container fuel recv h :
  ~ not_container h recv -> unwrapDeep fuel recv h = deepen fuel recv h.
Proof.
  intros C.
  unfold unwrapDeep, Option_call, deepen, bind, instanceof_Result,
    instanceof_Option.
  destruct (as_Result h recv) eqn:ER; [reflexivity|].
  destruct (as_Option h recv) eqn:EO; [reflexivity|].
  contradiction C. split; assumption.
Qed.

(** Unwrapping a nesting of [Ok] and [Some] layers gives back the payload,
    whatever the depth. *)
Lemma nest_deepen ls :
  forall v h,
    val_in_heap h v -> not_container h v ->
    exists c ext,
      nest ls v h = (Normal c, h ++ ext) /\
      val_in_heap (h ++ ext) c /\
      length ext = length ls /\
      (ls <> [] -> ~ not_container (h ++ ext) c) /\
      forall fuel, length ls <= fuel ->
                   deepen fuel c (h ++ ext) = (Normal v, h ++ ext).
Proof.
  induction ls as [|l ls IH]; intros v h Hv NC.
  - exists v, []. rewrite app_nil_r.
    split; [reflexivity|]. split; [exact Hv|]. split; [reflexivity|].
    split; [intros Hne; contradiction Hne; reflexivity|].
    intros fuel _. apply deepen_value. exact NC.
  - destruct (IH v h Hv NC) as (c & ext & En & Hc & Hlen & _ & Hd).
    set (h1 := h ++ ext) in *.
    exists (VRef (length h1)).
    destruct l.
    + exists (ext ++ [OResult (mkResult "ok" c undefined)]).
      rewrite app_assoc. fold h1.
      split; [|split; [|split; [|split]]].
      * simpl. rewrite (bind_Normal _ _ _ _ _ En). apply Result_ok_run.
      * unfold val_in_heap. simpl. rewrite length_app. simpl. lia.
      * rewrite length_app. simpl. lia.
      * intros _ [NR _]. rewrite as_Result_alloc in NR. discriminate NR.
      * intros [|fuel] Hf; [simpl in Hf; lia|].
        rewrite (deepen_Result _ _ _ _ (as_Result_alloc _ _)).
        rewrite Result_unwrapDeep_S.
        rewrite (bind_Normal _ _ _ c (h1 ++ [OResult (mkResult "ok" c undefined)]))
          by reflexivity.
        apply deepen_frame.
        -- apply Hd. simpl in Hf. lia.
        -- apply val_in_heap_ext. exact Hv.
    + exists (ext ++ [OOption (mkOption "some" c)]).
      rewrite app_assoc. fold h1.
      split; [|split; [|split; [|split]]].
      * simpl. rewrite (bind_Normal _ _ _ _ _ En). apply Option_some_run.
      * unfold val_in_heap. simpl. rewrite length_app. simpl. lia.
      * rewrite length_app. simpl. lia.
      * intros _ [_ NO]. rewrite as_Option_alloc in NO. discriminate NO.
      * intros [|fuel] Hf; [simpl in Hf; lia|].
        rewrite (deepen_Option _ _ _ _ (as_Result_alloc_Option _ _)
                   (as_Option_alloc _ _)).
        rewrite Option_unwrapDeep_S.
        rewrite (bind_Normal _ _ _ c (h1 ++ [OOption (mkOption "some" c)]))
          by reflexivity.
        apply deepen_frame.
        -- apply Hd. simpl in Hf. lia.
        -- apply val_in_heap_ext. exact Hv.
Qed.

Lemma nest_unwrapDeep ls v h fuel :
  ls <> [] -> val_in_heap h v -> not_container h v -> length ls <= fuel ->
  exists c h',
    nest ls v h = (Normal c, h') /\
    length h' = length h + length ls /\
    unwrapDeep fuel c h' = (Normal v, h').
Proof.
  intros Hls Hv NC Hf.
  destruct (nest_deepen ls v h Hv NC) as (c & ext & En & _ & Hlen & C & Hd).
  exists c, (h ++ ext). split; [exact En|]. split.
  - rewrite length_app. lia.
  - rewrite unwrapDeep_container by auto. apply Hd. exact Hf.
Qed.

(* ===================================================================== *)
(** ** Construction, inspection and extraction on Result *)
(* ===================================================================== *)

(** C1. For every value [v], [Result.ok(v).isOk()] is [true],
    [Result.ok(v).isErr()] is [false] and [Result.ok(v).unwrap()] returns
    [v]; for every [e], [Result.err(e).unwrap()] throws [e] itself: the
    thrown value is [e] and the only object allocated is the Result. *)
Theorem Result_ok_inspect_unwrap_err_throws :
  (forall v h,
      let h' := h ++ [OResult (mkResult "ok" v undefined)] in
      (let* r := Result_ok v in
       Result_call r (fun this => ret (Result_isOk this))) h
      = (Normal true, h') /\
      (let* r := Result_ok v in
       Result_call r (fun this => ret (Result_isErr this))) h
      = (Normal false, h') /\
      (let* r := Result_ok v in Result_call r Result_unwrap) h
      = (Normal v, h')) /\
  (forall e h,
      (let* r := Result_err e in Result_call r Result_unwrap) h
      = (Throw e, h ++ [OResult (mkResult "error" undefined e)])).
Proof.
  split.
  - intros v h h'. subst h'.
    rewrite !(bind_Normal _ _ _ _ _ (Result_ok_run v h)).
    rewrite !Result_call_alloc. repeat split.
  - intros e h.
    rewrite (bind_Normal _ _ _ _ _ (Result_err_run e h)).
    rewrite Result_call_alloc. reflexivity.
Qed.

(** C2. For every [e], [Result.err(e).unwrapErr()] returns [e].  For every
    value [v] of the heap, [Result.ok(v).unwrapErr()] throws a new [Error]
    object with the message "Cannot unwrapErr an Ok result": the object did
    not exist before the call, so it is neither [v], nor what the error
    slot of the Result holds, nor any other value that existed. *)
Theorem Result_unwrapErr_returns_or_misuse :
  (forall e h,
      (let* r := Result_err e in Result_call r Result_unwrapErr) h
      = (Normal e, h ++ [OResult (mkResult "error" undefined e)])) /\
  (forall v h,
      val_in_heap h v ->
      let this := mkResult "ok" v undefined in
      let h' := h ++ [OResult this] in
      let thrown := VRef (length h') in
      (let* r := Result_ok v in Result_call r Result_unwrapErr) h
      = (Throw thrown, h' ++ [OError "Cannot unwrapErr an Ok result"]) /\
      h' !! length h' = None /\
      thrown <> v /\
      thrown <> Result_error this /\
      (forall x, val_in_heap h' x -> thrown <> x)).
Proof.
  split.
  - intros e h.
    rewrite (bind_Normal _ _ _ _ _ (Result_err_run e h)).
    rewrite Result_call_alloc. reflexivity.
  - intros v h Hv this h' thrown.
    assert (F : forall x, val_in_heap h' x -> thrown <> x).
    { intros x Hx <-. unfold val_in_heap, val_below, thrown in Hx. lia. }
    split; [|split; [|split; [|split]]].
    + rewrite (bind_Normal _ _ _ _ _ (Result_ok_run v h)).
      fold this. fold h'. unfold h' at 1. rewrite Result_call_alloc.
      reflexivity.
    + apply lookup_fresh.
    + apply F. apply val_in_heap_ext. exact Hv.
    + discriminate.
    + exact F.
Qed.

Lemma Result_unwrapErr_returns_or_misuse_witness :
  val_in_heap [OError "boom"] (VRef 0) /\
  (let* r := Result_ok (VRef 0) in Result_call r Result_unwrapErr)
    [OError "boom"]
  = (Throw (VRef 2),
     [OError "boom"; OResult (mkResult "ok" (VRef 0) undefined);
      OError "Cannot unwrapErr an Ok result"]) /\
  VRef 2 <> VRef 0.
Proof.
  assert (Hv : val_in_heap [OError "boom"] (VRef 0)) by (simpl; lia).
  destruct (proj2 Result_unwrapErr_returns_or_misuse (VRef 0) [OError "boom"] Hv)
    as (E & _ & N & _).
  split; [exact Hv|]. split; [exact E | exact N].
Defined.

(* ===================================================================== *)
(** ** map and mapErr *)
(* ===================================================================== *)

Lemma Results_built_alloc h o :
  Results_built h ->
  (forall r, o = OResult r -> Result_built r) ->
  Results_built (h ++ [o]).
Proof.
  intros B Ho a r E.
  destruct (Nat.lt_ge_cases a (length h)) as [Hlt | Hge].
  - rewrite lookup_app_l in E by exact Hlt. eauto.
  - assert (a = length h) as ->.
    { apply lookup_lt_Some in E. rewrite length_app in E. simpl in E. lia. }
    rewrite lookup_alloc in E. injection E as ->. apply Ho. reflexivity.
Qed.

(** The two static constructors, the only callers of [new Result], keep
    every Result of the heap built. *)
Lemma Result_ok_built v h :
  Results_built h -> Results_built (snd (Result_ok v h)).
Proof.
  intros B. apply Results_built_alloc; [exact B|].
  intros r [= <-]. left. exists v. reflexivity.
Qed.

Lemma Result_err_built e h :
  Results_built h -> Results_built (snd (Result_err e h)).
Proof.
  intros B. apply Results_built_alloc; [exact B|].
  intros r [= <-]. right. exists e. reflexivity.
Qed.

(** C4. For every Result [r] that the class can build, of either variant,
    [r.map(x => x)] returns a new Result with the same fields as [r]: the
    same type, the same value and the same error. *)
Theorem Result_map_identity :
  forall r this h,
    as_Result h r = Some this ->
    Result_built this ->
    let h' := h ++ [OResult this] in
    Result_call r (Result_map identity_fn) h = (Normal (VRef (length h)), h') /\
    as_Result h' (VRef (length h)) = Some this.
Proof.
  intros r this h Hr B h'. split; [|apply as_Result_alloc].
  unfold Result_call, bind at 1, instanceof_Result. rewrite Hr.
  destruct B as [[v ->] | [e ->]].
  - subst h'. unfold Result_map, Result_constructor, identity_fn, bind, ret.
    simpl. rewrite Result_ok_run, !default_param_Never. reflexivity.
  - subst h'. unfold Result_map, Result_constructor. simpl.
    rewrite Result_err_run, !default_param_Never. reflexivity.
Qed.

Lemma Result_map_identity_witness :
  Result_call (VRef 1) (Result_map identity_fn)
    [OError "boom"; OResult (mkResult "error" undefined (VRef 0))]
  = (Normal (VRef 2),
     [OError "boom"; OResult (mkResult "error" undefined (VRef 0));
      OResult (mkResult "error" undefined (VRef 0))]).
Proof.
  refine (proj1 (Result_map_identity (VRef 1)
                   (mkResult "error" undefined (VRef 0))
                   [OError "boom"; OResult (mkResult "error" undefined (VRef 0))]
                   _ _)).
  - reflexivity.
  - right. exists (VRef 0). reflexivity.
Defined.

(** C5. [map] and [mapErr] forward the payload of the other variant and
    never throw: for every [e] and every callback [fn],
    [Result.err(e).map(fn)] returns a new Error-variant Result that holds
    [e], and for every [v], [Result.ok(v).mapErr(fn)] returns a new
    Ok-variant Result that holds [v].  Neither the result nor the heap
    depends on [fn], also when [fn] would throw or allocate: [fn] is not
    called. *)
Theorem Result_map_mapErr_forward :
  (forall e fn h,
      let o := OResult (mkResult "error" undefined e) in
      (let* r := Result_err e in Result_call r (Result_map fn)) h
      = (Normal (VRef (length (h ++ [o]))), (h ++ [o]) ++ [o])) /\
  (forall v fn h,
      let o := OResult (mkResult "ok" v undefined) in
      (let* r := Result_ok v in Result_call r (Result_mapErr fn)) h
      = (Normal (VRef (length (h ++ [o]))), (h ++ [o]) ++ [o])).
Proof.
  split.
  - intros e fn h o. subst o.
    rewrite (bind_Normal _ _ _ _ _ (Result_err_run e h)).
    rewrite Result_call_alloc. unfold Result_map. simpl.
    apply Result_err_run.
  - intros v fn h o. subst o.
    rewrite (bind_Normal _ _ _ _ _ (Result_ok_run v h)).
    rewrite Result_call_alloc. unfold Result_mapErr. simpl.
    apply Result_ok_run.
Qed.

(* ===================================================================== *)
(** ** Option.from and Option.some *)
(* ===================================================================== *)

Lemma Option_from_absent_run h :
  Option_from undefined h = Option_none h /\ Option_from null h = Option_none h.
Proof. split; reflexivity. Qed.

Lemma Option_from_present_run maybe h :
  maybe <> undefined -> maybe <> null ->
  Option_from maybe h = Option_some maybe h.
Proof.
  intros NU NN. unfold Option_from, strict_equal.
  destruct (val_eq_dec maybe undefined) as [E|_]; [contradiction|].
  destruct (val_eq_dec maybe null) as [E|_]; [contradiction|].
  reflexivity.
Qed.

(** C8. [Option.from(undefined)] and [Option.from(null)] are None options;
    for every other [v], [Option.from(v).isSome()] is [true] and
    [Option.from(v).unwrap()] returns [v]. *)
Theorem Option_from_absent_or_present :
  (forall h,
      let h' := h ++ [OOption (mkOption "none" undefined)] in
      (let* o := Option_from undefined in
       Option_call o (fun this => ret (Option_isNone this))) h
      = (Normal true, h') /\
      (let* o := Option_from null in
       Option_call o (fun this => ret (Option_isNone this))) h
      = (Normal true, h')) /\
  (forall v h,
      v <> undefined -> v <> null ->
      let h' := h ++ [OOption (mkOption "some" v)] in
      (let* o := Option_from v in
       Option_call o (fun this => ret (Option_isSome this))) h
      = (Normal true, h') /\
      (let* o := Option_from v in Option_call o Option_unwrap) h
      = (Normal v, h')).
Proof.
  split.
  - intros h h'. subst h'.
    destruct (Option_from_absent_run h) as [EU EN].
    rewrite (bind_Normal _ _ _ _ _ (eq_trans EU (Option_none_run h))).
    rewrite (bind_Normal _ _ _ _ _ (eq_trans EN (Option_none_run h))).
    rewrite !Option_call_alloc. split; reflexivity.
  - intros v h NU NN h'. subst h'.
    pose proof (eq_trans (Option_from_present_run v h NU NN)
                  (Option_some_run v h)) as E.
    rewrite !(bind_Normal _ _ _ _ _ E).
    rewrite !Option_call_alloc. split; reflexivity.
Qed.

Lemma Option_from_absent_or_present_witness :
  (let* o := Option_from (VNum 0) in Option_call o Option_unwrap) []
  = (Normal (VNum 0), [OOption (mkOption "some" (VNum 0))]).
Proof.
  refine (proj2 (proj2 Option_from_absent_or_present (VNum 0) [] _ _));
    discriminate.
Defined.

(** C10. [Option.some(v)] is a Some option for every [v], [undefined]
    included: [Option.some(v).isSome()] is [true], [.isNone()] is [false]
    and [.unwrap()] returns [v]; so [Option.some(undefined).unwrap()]
    returns [undefined], whereas [Option.from(undefined)] is None.  The two
    objects differ. *)
Theorem Option_some_is_always_Some :
  (forall v h,
      let h' := h ++ [OOption (mkOption "some" v)] in
      (let* o := Option_some v in
       Option_call o (fun this => ret (Option_isSome this))) h
      = (Normal true, h') /\
      (let* o := Option_some v in
       Option_call o (fun this => ret (Option_isNone this))) h
      = (Normal false, h') /\
      (let* o := Option_some v in Option_call o Option_unwrap) h
      = (Normal v, h')) /\
  (forall h,
      (let* o := Option_some undefined in Option_call o Option_unwrap) h
      = (Normal undefined, h ++ [OOption (mkOption "some" undefined)]) /\
      (let* o := Option_from undefined in
       Option_call o (fun this => ret (Option_isSome this))) h
      = (Normal false, h ++ [OOption (mkOption "none" undefined)]) /\
      (let* o := Option_from undefined in
       Option_call o (fun this => ret (Option_isNone this))) h
      = (Normal true, h ++ [OOption (mkOption "none" undefined)])) /\
  Option_constructor "some" undefined <> Option_constructor "none" undefined.
Proof.
  assert (HS : forall v h,
             let h' := h ++ [OOption (mkOption "some" v)] in
             (let* o := Option_some v in
              Option_call o (fun this => ret (Option_isSome this))) h
             = (Normal true, h') /\
             (let* o := Option_some v in
              Option_call o (fun this => ret (Option_isNone this))) h
             = (Normal false, h') /\
             (let* o := Option_some v in Option_call o Option_unwrap) h
             = (Normal v, h')).
  { intros v h h'. subst h'.
    rewrite !(bind_Normal _ _ _ _ _ (Option_some_run v h)).
    rewrite !Option_call_alloc. repeat split. }
  split; [exact HS|]. split; [|discriminate].
  intros h. split; [apply (HS undefined h)|].
  destruct (Option_from_absent_run h) as [EU _].
  rewrite !(bind_Normal _ _ _ _ _ (eq_trans EU (Option_none_run h))).
  rewrite !Option_call_alloc. split; reflexivity.
Qed.

(* ===================================================================== *)
(** ** Result.fromPromise *)
(* ===================================================================== *)

Lemma Result_fromPromise_Fulfilled v h :
  Result_fromPromise (Fulfilled v) h
  = (Normal (Fulfilled (VRef (length h))),
     h ++ [OResult (mkResult "ok" v undefined)]).
Proof.
  unfold Result_fromPromise, bind, Promise_then, settle_with.
  rewrite Result_ok_run. reflexivity.
Qed.

Lemma Result_fromPromise_Rejected e h :
  Result_fromPromise (Rejected e) h
  = (Normal (Fulfilled (VRef (length h))),
     h ++ [OResult (mkResult "error" undefined e)]).
Proof.
  unfold Result_fromPromise, bind, Promise_then, Promise_catch, settle_with,
    ret.
  rewrite Result_err_run. reflexivity.
Qed.

(** C9. When [p] fulfils with [v], [await Result.fromPromise(p)] is a
    Result whose [isOk()] is [true] and whose [unwrap()] returns [v]; when
    [p] rejects with [e], it is a Result whose [isErr()] is [true] and
    whose [unwrapErr()] returns [e].  The Result holds [v], or [e], as it
    was given, and nothing else is allocated. *)
Theorem Result_fromPromise_settles :
  (forall v h,
      let h' := h ++ [OResult (mkResult "ok" v undefined)] in
      (let* p := Result_fromPromise (Fulfilled v) in
       let* r := await p in
       Result_call r (fun this => ret (Result_isOk this))) h
      = (Normal true, h') /\
      (let* p := Result_fromPromise (Fulfilled v) in
       let* r := await p in
       Result_call r Result_unwrap) h
      = (Normal v, h')) /\
  (forall e h,
      let h' := h ++ [OResult (mkResult "error" undefined e)] in
      (let* p := Result_fromPromise (Rejected e) in
       let* r := await p in
       Result_call r (fun this => ret (Result_isErr this))) h
      = (Normal true, h') /\
      (let* p := Result_fromPromise (Rejected e) in
       let* r := await p in
       Result_call r Result_unwrapErr) h
      = (Normal e, h')).
Proof.
  split.
  - intros v h h'. subst h'.
    rewrite !(bind_Normal _ _ _ _ _ (Result_fromPromise_Fulfilled v h)).
    unfold await.
    rewrite !(bind_Normal (ret _) _ _ _ _ eq_refl).
    rewrite !Result_call_alloc. split; reflexivity.
  - intros e h h'. subst h'.
    rewrite !(bind_Normal _ _ _ _ _ (Result_fromPromise_Rejected e h)).
    unfold await.
    rewrite !(bind_Normal (ret _) _ _ _ _ eq_refl).
    rewrite !Result_call_alloc. split; reflexivity.
Qed.

(* ===================================================================== *)
(** ** unwrapDeep *)
(* ===================================================================== *)

Lemma nest_run ls :
  forall v h,
    val_in_heap h v -> bottom_up h ->
    exists c h',
      nest ls v h = (Normal c, h') /\ val_in_heap h' c /\ bottom_up h'.
Proof.
  induction ls as [|l ls IH]; intros v h Hv B.
  - exists v, h. auto.
  - destruct (IH v h Hv B) as (c & h1 & En & Hc & B1).
    exists (VRef (length h1)). simpl. rewrite (bind_Normal _ _ _ _ _ En).
    destruct l; simpl.
    + rewrite Result_ok_run. eexists. split; [reflexivity|]. split.
      * unfold val_in_heap. simpl. rewrite length_app. simpl. lia.
      * apply bottom_up_alloc; [exact B1|]. simpl. auto.
    + rewrite Option_some_run. eexists. split; [reflexivity|]. split.
      * unfold val_in_heap. simpl. rewrite length_app. simpl. lia.
      * apply bottom_up_alloc; [exact B1|]. exact Hc.
Qed.



(** C7. On a heap built bottom-up (every object refers only to objects
    that existed before it, so no nesting refers to itself) [unwrapDeep]
    terminates on every Result and every Option: it ends by returning or by
    throwing, and it ends the same way with any amount of fuel above the
    address of the receiver, so the fuel of the model is no depth limit.
    What it returns is neither a Result nor an Option, and it returns at
    once a payload that is neither.  Nestings of every depth exist on such
    heaps and are unwrapped down to the payload. *)
Theorem unwrapDeep_terminates :
  forall h,
    bottom_up h ->
    (forall a this,
        h !! a = Some (OResult this) ->
        exists out h',
          out <> Fuel /\
          (forall fuel, a < fuel -> Result_unwrapDeep fuel this h = (out, h')) /\
          (forall v, out = Normal v -> h' = h /\ not_container h v)) /\
    (forall a this,
        h !! a = Some (OOption this) ->
        exists out h',
          out <> Fuel /\
          (forall fuel, a < fuel -> Option_unwrapDeep fuel this h = (out, h')) /\
          (forall v, out = Normal v -> h' = h /\ not_container h v)) /\
    (forall this fuel,
        Result_isOk this = true -> not_container h (Result_value this) ->
        Result_unwrapDeep (S fuel) this h = (Normal (Result_value this), h)) /\
    (forall this fuel,
        Option_isSome this = true -> not_container h (Option_value this) ->
        Option_unwrapDeep (S fuel) this h = (Normal (Option_value this), h)) /\
    (forall ls v,
        ls <> [] -> val_in_heap h v -> not_container h v ->
        exists c h',
          nest ls v h = (Normal c, h') /\ bottom_up h' /\
          unwrapDeep (length ls) c h' = (Normal v, h')).
Proof.
  intros h B.
  split; [|split; [|split; [|split]]].
  - intros a this L.
    destruct (Result_unwrapDeep (S a) this h) as [out h'] eqn:E.
    assert (NF : out <> Fuel).
    { pose proof (proj1 (unwrapDeep_enough_fuel h B (S a)) a this L) as T.
      rewrite E in T. apply T. lia. }
    exists out, h'. split; [exact NF|]. split.
    + intros fuel Hf.
      apply (proj1 (unwrapDeep_fuel_mono (S a)) this h out h' fuel E NF). lia.
    + intros v ->. apply (proj1 (unwrapDeep_Normal (S a)) this h v h' E).
  - intros a this L.
    destruct (Option_unwrapDeep (S a) this h) as [out h'] eqn:E.
    assert (NF : out <> Fuel).
    { pose proof (proj2 (unwrapDeep_enough_fuel h B (S a)) a this L) as T.
      rewrite E in T. apply T. lia. }
    exists out, h'. split; [exact NF|]. split.
    + intros fuel Hf.
      apply (proj2 (unwrapDeep_fuel_mono (S a)) this h out h' fuel E NF). lia.
    + intros v ->. apply (proj2 (unwrapDeep_Normal (S a)) this h v h' E).
  - intros this fuel Hok NC. rewrite Result_unwrapDeep_S.
    destruct (Result_unwrap_cases this h) as [[_ U] | [F _]]; [|congruence].
    rewrite (bind_Normal _ _ _ _ _ U). apply deepen_value. exact NC.
  - intros this fuel Hsome NC. rewrite Option_unwrapDeep_S.
    destruct (Option_unwrap_cases this h) as [[_ U] | [F _]]; [|congruence].
    rewrite (bind_Normal _ _ _ _ _ U). apply deepen_value. exact NC.
  - intros ls v Hls Hv NC.
    destruct (nest_unwrapDeep ls v h (length ls) Hls Hv NC (le_n _))
      as (c & h' & En & _ & Eu).
    destruct (nest_run ls v h Hv B) as (c2 & h2 & En2 & _ & B2).
    rewrite En in En2. injection En2 as <- <-.
    exists c, h'. auto.
Qed.

Lemma unwrapDeep_terminates_witness :
  let h := [OOption (mkOption "some" (VNum 5));
            OResult (mkResult "ok" (VRef 0) undefined);
            OResult (mkResult "ok" (VRef 1) undefined)] in
  bottom_up h /\
  exists out h',
    out <> Fuel /\
    (forall fuel, 2 < fuel ->
       Result_unwrapDeep fuel (mkResult "ok" (VRef 1) undefined) h = (out, h')).
Proof.
  intros h.
  assert (B : bottom_up h).
  { apply (bottom_up_alloc [_; _]); [|simpl; split; [lia | exact I]].
    apply (bottom_up_alloc [_]); [|simpl; split; [lia | exact I]].
    apply (bottom_up_alloc []); [|exact I].
    apply bottom_up_nil. }
  split; [exact B|].
  destruct (proj1 (unwrapDeep_terminates h B) 2
              (mkResult "ok" (VRef 1) undefined) eq_refl)
    as (out & h' & NF & T & _).
  exists out, h'. split; [exact NF | exact T].
Defined.

(* ===================================================================== *)
(** ** Which operations can throw *)
(* ===================================================================== *)

Lemma returns_alloc o h : returns (alloc o) h.
Proof. eexists _, _. reflexivity. Qed.

Lemma returns_bind_alloc (fn : val -> M val) (x : val) (k : val -> obj) h :
  returns (fn x) h -> returns (let* u := fn x in alloc (k u)) h.
Proof.
  intros (u & h1 & E). unfold returns.
  rewrite (bind_Normal _ _ _ _ _ E). apply returns_alloc.
Qed.

(** [unwrapDeep] is not total: it throws what the [unwrap()] of a layer
    throws, here the error of an Error-variant Result and the failure of a
    None option under an Ok layer. *)
Lemma unwrapDeep_throws :
  (let* e := new_Error "boom" in
   let* r := Result_err e in
   Result_call r (Result_unwrapDeep 1)) []
  = (Throw (VRef 0),
     [OError "boom"; OResult (mkResult "error" undefined (VRef 0))]) /\
  (let* o := Option_none in
   let* r := Result_ok o in
   Result_call r (Result_unwrapDeep 2)) []
  = (Throw (VRef 2),
     [OOption (mkOption "none" undefined);
      OResult (mkResult "ok" (VRef 0) undefined);
      OError "Cannot unwrap a None option"]).
Proof. split; reflexivity. Qed.

(** C3, as the code has it.  The operations that can throw are [unwrap],
    [unwrapErr] and [unwrapDeep], and [unwrapDeep] throws only what the
    [unwrap()] of one of the nested layers throws: when it throws, there is
    a layer of the receiver, reached through layers whose [unwrap()]
    returns, whose [unwrap()] throws the same value and leaves the same
    heap; and when the [unwrap()] of such a layer throws, so does
    [unwrapDeep].  The constructors, [Option.from] and
    [Result.fromPromise] always return, and the promise that [fromPromise]
    returns is never rejected; [map], [mapErr] and [Option.map] return
    whenever the callback does not throw; [unwrapOr] yields the value or
    the fallback. *)
Theorem only_unwrap_operations_throw :
  (forall v h, returns (Result_ok v) h) /\
  (forall e h, returns (Result_err e) h) /\
  (forall v h, returns (Option_some v) h) /\
  (forall h, returns Option_none h) /\
  (forall maybe h, returns (Option_from maybe) h) /\
  (forall p h,
      exists p' h',
        Result_fromPromise p h = (Normal p', h') /\
        forall e, p' <> Rejected e) /\
  (forall fn this h, never_throws fn -> returns (Result_map fn this) h) /\
  (forall fn this h, never_throws fn -> returns (Result_mapErr fn this) h) /\
  (forall fn this h, never_throws fn -> returns (Option_map fn this) h) /\
  (forall this fallback,
      Result_unwrapOr this fallback = Result_value this \/
      Result_unwrapOr this fallback = fallback) /\
  (forall this fallback,
      Option_unwrapOr this fallback = Option_value this \/
      Option_unwrapOr this fallback = fallback) /\
  (forall fuel this h e h',
      Result_unwrapDeep fuel this h = (Throw e, h') ->
      exists c,
        layer_of h (CResult this) c /\
        container_unwrap c h = (Throw e, h')) /\
  (forall fuel this h e h',
      Option_unwrapDeep fuel this h = (Throw e, h') ->
      exists c,
        layer_of h (COption this) c /\
        container_unwrap c h = (Throw e, h')) /\
  (forall h c c' e h',
      layer_of h c c' ->
      container_unwrap c' h = (Throw e, h') ->
      exists fuel0,
        forall fuel, fuel0 <= fuel ->
                     container_unwrapDeep fuel c h = (Throw e, h')).
Proof.
  repeat apply conj.
  - intros v h. apply returns_alloc.
  - intros e h. apply returns_alloc.
  - intros v h. apply returns_alloc.
  - intros h. apply returns_alloc.
  - intros maybe h. unfold Option_from.
    destruct (strict_equal maybe undefined || strict_equal maybe null);
      apply returns_alloc.
  - intros [v | e |] h.
    + rewrite Result_fromPromise_Fulfilled. eexists _, _.
      split; [reflexivity | discriminate].
    + rewrite Result_fromPromise_Rejected. eexists _, _.
      split; [reflexivity | discriminate].
    + eexists _, _. split; [reflexivity | discriminate].
  - intros fn this h T. unfold Result_map.
    destruct (Result_isOk this).
    + apply (returns_bind_alloc fn _
               (fun u => OResult (Result_constructor "ok" u undefined))).
      apply T.
    + apply returns_alloc.
  - intros fn this h T. unfold Result_mapErr.
    destruct (Result_isErr this).
    + apply (returns_bind_alloc fn _
               (fun f => OResult (Result_constructor "error" Never f))).
      apply T.
    + apply returns_alloc.
  - intros fn this h T. unfold Option_map.
    destruct (Option_isSome this).
    + apply (returns_bind_alloc fn _
               (fun u => OOption (Option_constructor "some" u))).
      apply T.
    + apply returns_alloc.
  - intros this fallback. unfold Result_unwrapOr.
    destruct (Result_isOk this); auto.
  - intros this fallback. unfold Option_unwrapOr.
    destruct (Option_isSome this); auto.
  - intros fuel this. apply (unwrapDeep_Throw_layer fuel (CResult this)).
  - intros fuel this. apply (unwrapDeep_Throw_layer fuel (COption this)).
  - intros h c c' e h' L. apply (layer_Throw_unwrapDeep h c c' L).
Qed.

Lemma only_unwrap_operations_throw_witness :
  let h := [OError "boom";
            OResult (mkResult "error" undefined (VRef 0));
            OOption (mkOption "some" (VRef 1))] in
  never_throws identity_fn /\
  returns (Result_map identity_fn (mkResult "ok" (VNum 1) undefined)) [] /\
  Result_unwrapDeep 3 (mkResult "ok" (VRef 2) undefined) h
  = (Throw (VRef 0), h) /\
  (exists c,
      layer_of h (CResult (mkResult "ok" (VRef 2) undefined)) c /\
      container_unwrap c h = (Throw (VRef 0), h)) /\
  layer_of h (COption (mkOption "some" (VRef 1)))
    (CResult (mkResult "error" undefined (VRef 0))) /\
  (exists fuel0,
      forall fuel, fuel0 <= fuel ->
                   Option_unwrapDeep fuel (mkOption "some" (VRef 1)) h
                   = (Throw (VRef 0), h)).
Proof.
  intros h.
  assert (T : never_throws identity_fn).
  { intros x h0. eexists _, _. reflexivity. }
  assert (L : layer_of h (COption (mkOption "some" (VRef 1)))
                (CResult (mkResult "error" undefined (VRef 0)))).
  { apply (layer_under h _ (VRef 1)
             (CResult (mkResult "error" undefined (VRef 0))));
      [reflexivity | reflexivity | apply layer_outer]. }
  destruct only_unwrap_operations_throw
    as (_ & _ & _ & _ & _ & _ & Hmap & _ & _ & _ & _ & Hdeep & _ & Hconv).
  split; [exact T|]. split; [apply Hmap; exact T|].
  split; [reflexivity|]. split.
  - exact (Hdeep 3 (mkResult "ok" (VRef 2) undefined) h (VRef 0) h eq_refl).
  - split; [exact L|].
    exact (Hconv h _ _ (VRef 0) h L eq_refl).
Defined.

(* ===================================================================== *)
(** ** unwrapOr, on both classes *)
(* ===================================================================== *)

(** X1. [Result.ok(v).unwrapOr(f)] is [v] for every [v], also when [v] is
    [undefined]: the fallback is taken on the variant, not on the value.
    [Result.err(e).unwrapOr(f)] is [f].  On every Result, [unwrapOr] gives
    what [unwrap] returns when it returns and the fallback when it
    throws. *)
Theorem Result_unwrapOr_value_or_fallback :
  (forall v f h,
      (let* r := Result_ok v in
       Result_call r (fun this => ret (Result_unwrapOr this f))) h
      = (Normal v, h ++ [OResult (mkResult "ok" v undefined)])) /\
  (forall e f h,
      (let* r := Result_err e in
       Result_call r (fun this => ret (Result_unwrapOr this f))) h
      = (Normal f, h ++ [OResult (mkResult "error" undefined e)])) /\
  (forall this f h,
      (forall v h', Result_unwrap this h = (Normal v, h') ->
                    Result_unwrapOr this f = v) /\
      (forall e h', Result_unwrap this h = (Throw e, h') ->
                    Result_unwrapOr this f = f)).
Proof.
  split; [|split].
  - intros v f h. rewrite (bind_Normal _ _ _ _ _ (Result_ok_run v h)).
    rewrite Result_call_alloc. reflexivity.
  - intros e f h. rewrite (bind_Normal _ _ _ _ _ (Result_err_run e h)).
    rewrite Result_call_alloc. reflexivity.
  - intros this f h. unfold Result_unwrap, Result_unwrapOr.
    destruct (Result_isOk this); split; intros x h' E;
      (discriminate E || (injection E as <- _; reflexivity) || reflexivity).
Qed.

Lemma Result_unwrapOr_value_or_fallback_witness :
  Result_unwrapOr (mkResult "error" undefined (VRef 0)) (VNum 7) = VNum 7.
Proof.
  refine (proj2 (proj2 (proj2 Result_unwrapOr_value_or_fallback)
                   (mkResult "error" undefined (VRef 0)) (VNum 7)
                   [OError "boom"])
            (VRef 0) [OError "boom"] _).
  reflexivity.
Defined.

(** X2. [Option.some(v).unwrapOr(d)] is [v] and [Option.none().unwrapOr(d)]
    is [d]; so [Option.from(x).unwrapOr(d)] is [d] when [x] is [undefined]
    or [null] and [x] otherwise. *)
Theorem Option_unwrapOr_value_or_fallback :
  (forall v d h,
      (let* o := Option_some v in
       Option_call o (fun this => ret (Option_unwrapOr this d))) h
      = (Normal v, h ++ [OOption (mkOption "some" v)])) /\
  (forall d h,
      (let* o := Option_none in
       Option_call o (fun this => ret (Option_unwrapOr this d))) h
      = (Normal d, h ++ [OOption (mkOption "none" undefined)])) /\
  (forall x d h,
      (x = undefined \/ x = null ->
       (let* o := Option_from x in
        Option_call o (fun this => ret (Option_unwrapOr this d))) h
       = (Normal d, h ++ [OOption (mkOption "none" undefined)])) /\
      (x <> undefined -> x <> null ->
       (let* o := Option_from x in
        Option_call o (fun this => ret (Option_unwrapOr this d))) h
       = (Normal x, h ++ [OOption (mkOption "some" x)]))).
Proof.
  assert (HS : forall v d h,
             (let* o := Option_some v in
              Option_call o (fun this => ret (Option_unwrapOr this d))) h
             = (Normal v, h ++ [OOption (mkOption "some" v)])).
  { intros v d h. rewrite (bind_Normal _ _ _ _ _ (Option_some_run v h)).
    rewrite Option_call_alloc. reflexivity. }
  assert (HN : forall d h,
             (let* o := Option_none in
              Option_call o (fun this => ret (Option_unwrapOr this d))) h
             = (Normal d, h ++ [OOption (mkOption "none" undefined)])).
  { intros d h. rewrite (bind_Normal _ _ _ _ _ (Option_none_run h)).
    rewrite Option_call_alloc. reflexivity. }
  split; [exact HS|]. split; [exact HN|].
  intros x d h. split.
  - intros [-> | ->]; apply HN.
  - intros NU NN.
    pose proof (eq_trans (Option_from_present_run x h NU NN)
                  (Option_some_run x h)) as E.
    rewrite (bind_Normal _ _ _ _ _ E). rewrite Option_call_alloc.
    reflexivity.
Qed.

Lemma Option_unwrapOr_value_or_fallback_witness :
  (let* o := Option_from null in
   Option_call o (fun this => ret (Option_unwrapOr this (VStr "d")))) []
  = (Normal (VStr "d"), [OOption (mkOption "none" undefined)]) /\
  (let* o := Option_from (VBool false) in
   Option_call o (fun this => ret (Option_unwrapOr this (VStr "d")))) []
  = (Normal (VBool false), [OOption (mkOption "some" (VBool false))]).
Proof.
  destruct (proj2 (proj2 Option_unwrapOr_value_or_fallback) null (VStr "d") [])
    as [A _].
  destruct (proj2 (proj2 Option_unwrapOr_value_or_fallback) (VBool false)
              (VStr "d") []) as [_ B].
  split.
  - apply A. right. reflexivity.
  - apply B; discriminate.
Defined.

(* ===================================================================== *)
(** ** Option.unwrap and Option.from *)
(* ===================================================================== *)

(** X3. [Option.none().unwrap()] throws a new [Error] object with the
    message "Cannot unwrap a None option"; the object did not exist before
    the call, so it differs from every value that did.
    [Option.from(null).unwrap()] and [Option.from(undefined).unwrap()]
    throw the same way. *)
Theorem Option_unwrap_None_throws_fresh :
  forall h,
    let h' := h ++ [OOption (mkOption "none" undefined)] in
    let thrown := VRef (length h') in
    (let* o := Option_none in Option_call o Option_unwrap) h
    = (Throw thrown, h' ++ [OError "Cannot unwrap a None option"]) /\
    (let* o := Option_from null in Option_call o Option_unwrap) h
    = (Throw thrown, h' ++ [OError "Cannot unwrap a None option"]) /\
    (let* o := Option_from undefined in Option_call o Option_unwrap) h
    = (Throw thrown, h' ++ [OError "Cannot unwrap a None option"]) /\
    h' !! length h' = None /\
    (forall x, val_in_heap h' x -> thrown <> x).
Proof.
  intros h h' thrown.
  assert (N : (let* o := Option_none in Option_call o Option_unwrap) h
              = (Throw thrown, h' ++ [OError "Cannot unwrap a None option"])).
  { rewrite (bind_Normal _ _ _ _ _ (Option_none_run h)).
    fold h'. unfold h' at 1. rewrite Option_call_alloc. reflexivity. }
  split; [exact N|]. split; [exact N|]. split; [exact N|].
  split; [apply lookup_fresh|].
  intros x Hx <-. unfold val_in_heap, val_below, thrown in Hx. lia.
Qed.

Lemma Option_unwrap_None_throws_fresh_witness :
  val_in_heap [OError "boom"; OOption (mkOption "none" undefined)] (VRef 0) /\
  VRef 2 <> VRef 0.
Proof.
  assert (Hv : val_in_heap [OError "boom"; OOption (mkOption "none" undefined)]
                 (VRef 0)) by (simpl; lia).
  split; [exact Hv|].
  destruct (Option_unwrap_None_throws_fresh [OError "boom"])
    as (_ & _ & _ & _ & F).
  exact (F (VRef 0) Hv).
Defined.

(** X4. [Option.from(maybe)] allocates one Option.  It is a Some exactly
    when [maybe] is neither [undefined] nor [null], and then it holds
    [maybe]: a Some made by [from] never holds [undefined] or [null].  It is
    a None exactly when [maybe] is [undefined] or [null]. *)
Theorem Option_from_Some_is_not_nullish :
  forall maybe h,
    exists this,
      Option_from maybe h = (Normal (VRef (length h)), h ++ [OOption this]) /\
      Option_built this /\
      Option_isNone this = negb (Option_isSome this) /\
      (Option_isSome this = true <-> maybe <> undefined /\ maybe <> null) /\
      (Option_isSome this = true -> Option_value this = maybe).
Proof.
  intros maybe h.
  destruct (val_eq_dec maybe undefined) as [-> | NU].
  - exists (mkOption "none" undefined).
    split; [reflexivity|]. split; [right; reflexivity|].
    split; [reflexivity|]. split; [|discriminate].
    split; [discriminate | intros [C _]; contradiction C; reflexivity].
  - destruct (val_eq_dec maybe null) as [-> | NN].
    + exists (mkOption "none" undefined).
      split; [reflexivity|]. split; [right; reflexivity|].
      split; [reflexivity|]. split; [|discriminate].
      split; [discriminate | intros [_ C]; contradiction C; reflexivity].
    + exists (mkOption "some" maybe).
      split.
      { rewrite (Option_from_present_run maybe h NU NN).
        apply Option_some_run. }
      split.
      { left. exists maybe. unfold Option_constructor.
        rewrite default_param_Never. reflexivity. }
      split; [reflexivity|]. split; [|reflexivity].
      split; [intros _; split; assumption | reflexivity].
Qed.

Lemma Option_from_Some_is_not_nullish_witness :
  exists this,
    Option_from (VNum 0) [] = (Normal (VRef 0), [OOption this]) /\
    Option_value this = VNum 0.
Proof.
  destruct (Option_from_Some_is_not_nullish (VNum 0) [])
    as (this & E & _ & _ & Hiff & Hval).
  exists this. split; [exact E|].
  apply Hval. apply Hiff. split; discriminate.
Defined.

(* ===================================================================== *)
(** ** map, mapErr and Option.map on the variant they transform *)
(* ===================================================================== *)

(** X5. [Result.ok(v).map(fn)] calls [fn] on [v]: when [fn] returns [u],
    the result is a new Ok-variant Result that holds [u], so
    [Result.ok(v).map(fn).unwrap()] is [fn(v)]; when [fn] throws, [map]
    throws the same value and allocates no Result. *)
Theorem Result_map_on_Ok :
  forall v fn h,
    let h0 := h ++ [OResult (mkResult "ok" v undefined)] in
    (forall u h1,
        fn v h0 = (Normal u, h1) ->
        (let* r := Result_ok v in Result_call r (Result_map fn)) h
        = (Normal (VRef (length h1)),
           h1 ++ [OResult (mkResult "ok" u undefined)]) /\
        (let* r := Result_ok v in
         let* m := Result_call r (Result_map fn) in
         Result_call m Result_unwrap) h
        = (Normal u, h1 ++ [OResult (mkResult "ok" u undefined)])) /\
    (forall e h1,
        fn v h0 = (Throw e, h1) ->
        (let* r := Result_ok v in Result_call r (Result_map fn)) h
        = (Throw e, h1)).
Proof.
  intros v fn h h0. split.
  - intros u h1 E.
    assert (R : (let* r := Result_ok v in Result_call r (Result_map fn)) h
                = (Normal (VRef (length h1)),
                   h1 ++ [OResult (mkResult "ok" u undefined)])).
    { rewrite (bind_Normal _ _ _ _ _ (Result_ok_run v h)).
      rewrite Result_call_alloc. unfold Result_map. simpl. fold h0.
      rewrite (bind_Normal _ _ _ _ _ E). apply Result_ok_run. }
    split; [exact R|].
    rewrite (bind_Normal _ _ _ _ _ (Result_ok_run v h)).
    rewrite (bind_Normal (Result_call _ (Result_map fn)) _ _
               (VRef (length h1))
               (h1 ++ [OResult (mkResult "ok" u undefined)])).
    + rewrite Result_call_alloc. reflexivity.
    + rewrite (bind_Normal _ _ _ _ _ (Result_ok_run v h)) in R. exact R.
  - intros e h1 E.
    rewrite (bind_Normal _ _ _ _ _ (Result_ok_run v h)).
    rewrite Result_call_alloc. unfold Result_map. simpl. fold h0.
    apply bind_Throw. exact E.
Qed.

Lemma Result_map_on_Ok_witness :
  (let* r := Result_ok (VNum 1) in
   let* m := Result_call r (Result_map (pure_fn (fun _ => VStr "one"))) in
   Result_call m Result_unwrap) []
  = (Normal (VStr "one"),
     [OResult (mkResult "ok" (VNum 1) undefined);
      OResult (mkResult "ok" (VStr "one") undefined)]) /\
  (let* r := Result_ok (VNum 1) in
   Result_call r (Result_map (fun x => throw x))) []
  = (Throw (VNum 1), [OResult (mkResult "ok" (VNum 1) undefined)]).
Proof.
  split.
  - refine (proj2 (proj1 (Result_map_on_Ok (VNum 1)
                            (pure_fn (fun _ => VStr "one")) [])
                     (VStr "one")
                     [OResult (mkResult "ok" (VNum 1) undefined)] _)).
    reflexivity.
  - refine (proj2 (Result_map_on_Ok (VNum 1) (fun x => throw x) [])
              (VNum 1) [OResult (mkResult "ok" (VNum 1) undefined)] _).
    reflexivity.
Defined.

(** X6. [Result.err(e).mapErr(fn)] calls [fn] on [e]: when [fn] returns
    [f], the result is a new Error-variant Result that holds [f], so
    [Result.err(e).mapErr(fn).unwrapErr()] is [fn(e)] and its [unwrap()]
    throws [fn(e)]; when [fn] throws, [mapErr] throws the same value and
    allocates no Result. *)
Theorem Result_mapErr_on_Error :
  forall e fn h,
    let h0 := h ++ [OResult (mkResult "error" undefined e)] in
    (forall f h1,
        fn e h0 = (Normal f, h1) ->
        let h2 := h1 ++ [OResult (mkResult "error" undefined f)] in
        (let* r := Result_err e in Result_call r (Result_mapErr fn)) h
        = (Normal (VRef (length h1)), h2) /\
        (let* r := Result_err e in
         let* m := Result_call r (Result_mapErr fn) in
         Result_call m Result_unwrapErr) h
        = (Normal f, h2) /\
        (let* r := Result_err e in
         let* m := Result_call r (Result_mapErr fn) in
         Result_call m Result_unwrap) h
        = (Throw f, h2)) /\
    (forall x h1,
        fn e h0 = (Throw x, h1) ->
        (let* r := Result_err e in Result_call r (Result_mapErr fn)) h
        = (Throw x, h1)).
Proof.
  intros e fn h h0. split.
  - intros f h1 E h2.
    assert (R : Result_call (VRef (length h)) (Result_mapErr fn) h0
                = (Normal (VRef (length h1)), h2)).
    { unfold h0. rewrite Result_call_alloc. unfold Result_mapErr. simpl.
      fold h0. rewrite (bind_Normal _ _ _ _ _ E). apply Result_err_run. }
    rewrite !(bind_Normal _ _ _ _ _ (Result_err_run e h)). fold h0.
    split; [exact R|].
    rewrite !(bind_Normal _ _ _ _ _ R).
    unfold h2. rewrite !Result_call_alloc. split; reflexivity.
  - intros x h1 E.
    rewrite (bind_Normal _ _ _ _ _ (Result_err_run e h)).
    rewrite Result_call_alloc. unfold Result_mapErr. simpl. fold h0.
    apply bind_Throw. exact E.
Qed.

Lemma Result_mapErr_on_Error_witness :
  (let* r := Result_err (VRef 0) in
   let* m := Result_call r (Result_mapErr (fun _ => new_Error "wrapped")) in
   Result_call m Result_unwrapErr) [OError "boom"]
  = (Normal (VRef 2),
     [OError "boom"; OResult (mkResult "error" undefined (VRef 0));
      OError "wrapped"; OResult (mkResult "error" undefined (VRef 2))]).
Proof.
  refine (proj1 (proj2 (proj1 (Result_mapErr_on_Error (VRef 0)
                                 (fun _ => new_Error "wrapped")
                                 [OError "boom"])
                          (VRef 2)
                          [OError "boom";
                           OResult (mkResult "error" undefined (VRef 0));
                           OError "wrapped"] _))).
  reflexivity.
Defined.

(** X7. [Option.some(v).map(fn)] calls [fn] on [v]: when [fn] returns [u]
    the result is a new Some that holds [u], so
    [Option.some(v).map(fn).unwrap()] is [fn(v)]; when [fn] throws, [map]
    throws the same value.  [Option.none().map(fn)] is a new None, whatever
    [fn] is: [fn] is not called. *)
Theorem Option_map_Some_and_None :
  (forall v fn h,
      let h0 := h ++ [OOption (mkOption "some" v)] in
      (forall u h1,
          fn v h0 = (Normal u, h1) ->
          let h2 := h1 ++ [OOption (mkOption "some" u)] in
          (let* o := Option_some v in Option_call o (Option_map fn)) h
          = (Normal (VRef (length h1)), h2) /\
          (let* o := Option_some v in
           let* m := Option_call o (Option_map fn) in
           Option_call m Option_unwrap) h
          = (Normal u, h2)) /\
      (forall e h1,
          fn v h0 = (Throw e, h1) ->
          (let* o := Option_some v in Option_call o (Option_map fn)) h
          = (Throw e, h1))) /\
  (forall fn h,
      let o := OOption (mkOption "none" undefined) in
      (let* n := Option_none in Option_call n (Option_map fn)) h
      = (Normal (VRef (length (h ++ [o]))), (h ++ [o]) ++ [o]) /\
      (let* n := Option_none in
       let* m := Option_call n (Option_map fn) in
       Option_call m (fun this => ret (Option_isNone this))) h
      = (Normal true, (h ++ [o]) ++ [o])).
Proof.
  split.
  - intros v fn h h0. split.
    + intros u h1 E h2.
      assert (R : Option_call (VRef (length h)) (Option_map fn) h0
                  = (Normal (VRef (length h1)), h2)).
      { unfold h0. rewrite Option_call_alloc. unfold Option_map. simpl.
        fold h0. rewrite (bind_Normal _ _ _ _ _ E). apply Option_some_run. }
      rewrite !(bind_Normal _ _ _ _ _ (Option_some_run v h)). fold h0.
      split; [exact R|].
      rewrite (bind_Normal _ _ _ _ _ R).
      unfold h2. rewrite Option_call_alloc. reflexivity.
    + intros e h1 E.
      rewrite (bind_Normal _ _ _ _ _ (Option_some_run v h)).
      rewrite Option_call_alloc. unfold Option_map. simpl. fold h0.
      apply bind_Throw. exact E.
  - intros fn h o. unfold o. clear o.
    set (n := mkOption "none" undefined).
    assert (R : Option_call (VRef (length h)) (Option_map fn) (h ++ [OOption n])
                = (Normal (VRef (length (h ++ [OOption n]))),
                   (h ++ [OOption n]) ++ [OOption n])).
    { rewrite Option_call_alloc. reflexivity. }
    rewrite !(bind_Normal _ _ _ _ _ (Option_none_run h)). fold n.
    split; [exact R|].
    rewrite (bind_Normal _ _ _ _ _ R).
    rewrite Option_call_alloc. reflexivity.
Qed.

Lemma Option_map_Some_and_None_witness :
  (let* o := Option_some (VNum 2) in
   let* m := Option_call o (Option_map (pure_fn (fun _ => VNum 4))) in
   Option_call m Option_unwrap) []
  = (Normal (VNum 4),
     [OOption (mkOption "some" (VNum 2)); OOption (mkOption "some" (VNum 4))]).
Proof.
  refine (proj2 (proj1 (proj1 Option_map_Some_and_None (VNum 2)
                          (pure_fn (fun _ => VNum 4)) [])
                   (VNum 4) [OOption (mkOption "some" (VNum 2))] _)).
  reflexivity.
Defined.

(* ===================================================================== *)
(** ** Composition and variants *)
(* ===================================================================== *)

Lemma Result_call_known {A} (method : Result -> M A) h r this :
  as_Result h r = Some this -> Result_call r method h = method this h.
Proof.
  intros E. unfold Result_call, bind, instanceof_Result. rewrite E.
  reflexivity.
Qed.

Lemma Option_call_known {A} (method : Option -> M A) h o this :
  as_Option h o = Some this -> Option_call o method h = method this h.
Proof.
  intros E. unfold Option_call, bind, instanceof_Option. rewrite E.
  reflexivity.
Qed.

(** X8. For callbacks without effects, mapping twice is mapping once with
    the composed callback: on every Result [r], [r.map(f).map(g)] and
    [r.map(x => g(f(x)))] both return, and the two Results they return have
    the same type, value and error. *)
Theorem Result_map_composition :
  forall r this h f g,
    as_Result h r = Some this ->
    exists r1 h1 r2 h2 this',
      (let* m := Result_call r (Result_map (pure_fn f)) in
       Result_call m (Result_map (pure_fn g))) h = (Normal r1, h1) /\
      Result_call r (Result_map (pure_fn (fun x => g (f x)))) h
      = (Normal r2, h2) /\
      as_Result h1 r1 = Some this' /\
      as_Result h2 r2 = Some this'.
Proof.
  intros r this h f g Hr.
  unfold bind at 1. rewrite !(Result_call_known _ _ _ _ Hr).
  unfold Result_map at 1 3. destruct (Result_isOk this) eqn:Hok.
  - unfold pure_fn at 1 3.
    rewrite !(bind_Normal (ret _) _ _ _ _ eq_refl). rewrite !Result_ok_run.
    rewrite Result_call_alloc. unfold Result_map. simpl. unfold pure_fn.
    rewrite (bind_Normal (ret _) _ _ _ _ eq_refl). rewrite Result_ok_run.
    eexists _, _, _, _, _. split; [reflexivity|]. split; [reflexivity|].
    split; apply as_Result_alloc.
  - rewrite !Result_err_run.
    rewrite Result_call_alloc. unfold Result_map. simpl.
    rewrite Result_err_run.
    eexists _, _, _, _, _. split; [reflexivity|]. split; [reflexivity|].
    split; apply as_Result_alloc.
Qed.

Lemma Result_map_composition_witness :
  exists r1 h1 r2 h2 this',
    (let* m := Result_call (VRef 0) (Result_map (pure_fn (fun _ => VNum 1))) in
     Result_call m (Result_map (pure_fn (fun _ => VNum 2))))
      [OResult (mkResult "ok" (VNum 0) undefined)] = (Normal r1, h1) /\
    Result_call (VRef 0) (Result_map (pure_fn (fun _ => VNum 2)))
      [OResult (mkResult "ok" (VNum 0) undefined)] = (Normal r2, h2) /\
    as_Result h1 r1 = Some this' /\
    as_Result h2 r2 = Some this'.
Proof.
  exact (Result_map_composition (VRef 0) (mkResult "ok" (VNum 0) undefined)
           [OResult (mkResult "ok" (VNum 0) undefined)]
           (fun _ => VNum 1) (fun _ => VNum 2) eq_refl).
Defined.

(** X9. A Result built by the class is Ok or Error and not both:
    [isErr()] is the negation of [isOk()]; likewise [isNone()] is the
    negation of [isSome()] on an Option.  [map], [mapErr] and [Option.map]
    never change the variant: whenever they return, what they return is
    again built by the class and answers [isOk()] (or [isSome()]) as the
    receiver does. *)
Theorem variants_exclusive_and_kept_by_map :
  (forall this,
      Result_built this -> Result_isErr this = negb (Result_isOk this)) /\
  (forall this,
      Option_built this -> Option_isNone this = negb (Option_isSome this)) /\
  (forall fn this h r' h',
      Result_built this ->
      Result_map fn this h = (Normal r', h') ->
      exists this',
        as_Result h' r' = Some this' /\ Result_built this' /\
        Result_isOk this' = Result_isOk this) /\
  (forall fn this h r' h',
      Result_built this ->
      Result_mapErr fn this h = (Normal r', h') ->
      exists this',
        as_Result h' r' = Some this' /\ Result_built this' /\
        Result_isOk this' = Result_isOk this) /\
  (forall fn this h o' h',
      Option_built this ->
      Option_map fn this h = (Normal o', h') ->
      exists this',
        as_Option h' o' = Some this' /\ Option_built this' /\
        Option_isSome this' = Option_isSome this).
Proof.
  assert (Bok : forall u, Result_built (mkResult "ok" u undefined)).
  { intros u. left. exists u. unfold Result_constructor.
    rewrite !default_param_Never. reflexivity. }
  assert (Berr : forall e, Result_built (mkResult "error" undefined e)).
  { intros e. right. exists e. unfold Result_constructor.
    rewrite !default_param_Never. reflexivity. }
  assert (Bsome : forall u, Option_built (mkOption "some" u)).
  { intros u. left. exists u. unfold Option_constructor.
    rewrite default_param_Never. reflexivity. }
  split; [|split; [|split; [|split]]].
  - intros this [[v ->] | [e ->]]; reflexivity.
  - intros this [[v ->] | ->]; reflexivity.
  - intros fn this h r' h' [[v ->] | [e ->]] E.
    + unfold Result_map in E. simpl in E. unfold bind in E.
      destruct (fn _ h) as [[u | x |] h1]; try discriminate E.
      rewrite Result_ok_run in E. injection E as <- <-.
      eexists. split; [apply as_Result_alloc|]. split; [apply Bok|].
      reflexivity.
    + unfold Result_map in E. simpl in E.
      rewrite Result_err_run in E. injection E as <- <-.
      eexists. split; [apply as_Result_alloc|]. split; [apply Berr|].
      reflexivity.
  - intros fn this h r' h' [[v ->] | [e ->]] E.
    + unfold Result_mapErr in E. simpl in E.
      rewrite Result_ok_run in E. injection E as <- <-.
      eexists. split; [apply as_Result_alloc|]. split; [apply Bok|].
      reflexivity.
    + unfold Result_mapErr in E. simpl in E. unfold bind in E.
      destruct (fn _ h) as [[u | x |] h1]; try discriminate E.
      rewrite Result_err_run in E. injection E as <- <-.
      eexists. split; [apply as_Result_alloc|]. split; [apply Berr|].
      reflexivity.
  - intros fn this h o' h' [[v ->] | ->] E.
    + unfold Option_map in E. simpl in E. unfold bind in E.
      destruct (fn _ h) as [[u | x |] h1]; try discriminate E.
      rewrite Option_some_run in E. injection E as <- <-.
      eexists. split; [apply as_Option_alloc|]. split; [apply Bsome|].
      reflexivity.
    + unfold Option_map in E. simpl in E.
      rewrite Option_none_run in E. injection E as <- <-.
      eexists. split; [apply as_Option_alloc|]. split; [right; reflexivity|].
      reflexivity.
Qed.

Lemma variants_exclusive_and_kept_by_map_witness :
  Result_built (mkResult "error" undefined (VRef 0)) /\
  Result_isErr (mkResult "error" undefined (VRef 0)) = true /\
  exists this',
    as_Result [OError "boom"; OResult (mkResult "error" undefined (VRef 0))]
      (VRef 1) = Some this' /\
    Result_isOk this' = false.
Proof.
  assert (B : Result_built (mkResult "error" undefined (VRef 0))).
  { right. exists (VRef 0). reflexivity. }
  destruct variants_exclusive_and_kept_by_map as (X & _ & Hmap & _).
  split; [exact B|]. split; [exact (X _ B)|].
  destruct (Hmap identity_fn (mkResult "error" undefined (VRef 0))
              [OError "boom"] (VRef 1)
              [OError "boom"; OResult (mkResult "error" undefined (VRef 0))]
              B eq_refl) as (this' & A & _ & K).
  exists this'. split; [exact A | exact K].
Defined.

(* ===================================================================== *)
(** ** Objects are never modified *)
(* ===================================================================== *)

Lemma only_allocates_ret {A} (a : A) : only_allocates (ret a).
Proof. intros h. reflexivity. Qed.

Lemma only_allocates_throw {A} e : only_allocates (@throw A e).
Proof. intros h. reflexivity. Qed.

Lemma only_allocates_alloc o : only_allocates (alloc o).
Proof. intros h. simpl. apply prefix_app_r. reflexivity. Qed.

Lemma only_allocates_bind {A B} (m : M A) (k : A -> M B) :
  only_allocates m -> (forall a, only_allocates (k a)) ->
  only_allocates (bind m k).
Proof.
  intros Hm Hk h. unfold bind. specialize (Hm h).
  destruct (m h) as [[a | e |] h1]; simpl in *; try exact Hm.
  transitivity h1; [exact Hm | apply Hk].
Qed.

Lemma only_allocates_unwrap :
  (forall this, only_allocates (Result_unwrap this)) /\
  (forall this, only_allocates (Result_unwrapErr this)) /\
  (forall this, only_allocates (Option_unwrap this)).
Proof.
  split; [|split]; intros this.
  - unfold Result_unwrap. destruct (Result_isOk this);
      [apply only_allocates_ret | apply only_allocates_throw].
  - unfold Result_unwrapErr. destruct (Result_isErr this).
    + apply only_allocates_ret.
    + apply only_allocates_bind;
        [apply only_allocates_alloc | intros; apply only_allocates_throw].
  - unfold Option_unwrap. destruct (Option_isSome this).
    + apply only_allocates_ret.
    + apply only_allocates_bind;
        [apply only_allocates_alloc | intros; apply only_allocates_throw].
Qed.

Lemma only_allocates_unwrapDeep fuel :
  (forall this, only_allocates (Result_unwrapDeep fuel this)) /\
  (forall this, only_allocates (Option_unwrapDeep fuel this)).
Proof.
  destruct only_allocates_unwrap as (Ur & _ & Uo).
  induction fuel as [|fuel [IHr IHo]].
  - split; intros this h; reflexivity.
  - assert (D : forall value, only_allocates (deepen fuel value)).
    { intros value h.
      destruct (deepen_cases fuel value h)
        as [(r & _ & ->) | [(o & _ & _ & ->) | (_ & ->)]].
      - apply IHr.
      - apply IHo.
      - reflexivity. }
    split; intros this.
    + rewrite Result_unwrapDeep_S. apply only_allocates_bind; auto.
    + rewrite Option_unwrapDeep_S. apply only_allocates_bind; auto.
Qed.

(** X10. No operation of the two classes modifies or removes an object:
    whatever it is called on and however it ends, the heap it leaves is the
    heap it found followed by the objects it allocated.  For [map],
    [mapErr] and [Option.map] this holds when the callback does the
    same. *)
Theorem operations_only_allocate :
  (forall v, only_allocates (Result_ok v)) /\
  (forall e, only_allocates (Result_err e)) /\
  (forall v, only_allocates (Option_some v)) /\
  only_allocates Option_none /\
  (forall maybe, only_allocates (Option_from maybe)) /\
  (forall this, only_allocates (Result_unwrap this)) /\
  (forall this, only_allocates (Result_unwrapErr this)) /\
  (forall this, only_allocates (Option_unwrap this)) /\
  (forall fuel this, only_allocates (Result_unwrapDeep fuel this)) /\
  (forall fuel this, only_allocates (Option_unwrapDeep fuel this)) /\
  (forall fn this,
      (forall x, only_allocates (fn x)) ->
      only_allocates (Result_map fn this)) /\
  (forall fn this,
      (forall x, only_allocates (fn x)) ->
      only_allocates (Result_mapErr fn this)) /\
  (forall fn this,
      (forall x, only_allocates (fn x)) ->
      only_allocates (Option_map fn this)) /\
  (forall p, only_allocates (Result_fromPromise p)).
Proof.
  destruct only_allocates_unwrap as (Ur & Ue & Uo).
  repeat apply conj.
  - intros v. apply only_allocates_alloc.
  - intros e. apply only_allocates_alloc.
  - intros v. apply only_allocates_alloc.
  - apply only_allocates_alloc.
  - intros maybe. unfold Option_from.
    destruct (strict_equal maybe undefined || strict_equal maybe null);
      apply only_allocates_alloc.
  - exact Ur.
  - exact Ue.
  - exact Uo.
  - intros fuel. apply (proj1 (only_allocates_unwrapDeep fuel)).
  - intros fuel. apply (proj2 (only_allocates_unwrapDeep fuel)).
  - intros fn this Hfn. unfold Result_map. destruct (Result_isOk this).
    + apply only_allocates_bind; [apply Hfn|].
      intros u. apply only_allocates_alloc.
    + apply only_allocates_alloc.
  - intros fn this Hfn. unfold Result_mapErr. destruct (Result_isErr this).
    + apply only_allocates_bind; [apply Hfn|].
      intros u. apply only_allocates_alloc.
    + apply only_allocates_alloc.
  - intros fn this Hfn. unfold Option_map. destruct (Option_isSome this).
    + apply only_allocates_bind; [apply Hfn|].
      intros u. apply only_allocates_alloc.
    + apply only_allocates_alloc.
  - intros [v | e |] h.
    + rewrite Result_fromPromise_Fulfilled. simpl.
      apply prefix_app_r. reflexivity.
    + rewrite Result_fromPromise_Rejected. simpl.
      apply prefix_app_r. reflexivity.
    + reflexivity.
Qed.

Lemma operations_only_allocate_witness :
  [OError "boom"] `prefix_of`
    snd (Result_map (fun _ => new_Error "other")
           (mkResult "ok" (VRef 0) undefined) [OError "boom"]).
Proof.
  destruct operations_only_allocate
    as (_ & _ & _ & _ & _ & _ & _ & _ & _ & _ & Hmap & _).
  apply Hmap. intros x. apply only_allocates_alloc.
Defined.

(** X11. [unwrapDeep] allocates nothing on the way down.  When it returns,
    the heap is unchanged; when it throws, either the heap is unchanged (an
    Error-variant Result threw the error it holds) or the heap has grown by
    the one "Cannot unwrap a None option" [Error] that is thrown. *)
Theorem unwrapDeep_allocates_at_most_one_Error :
  forall fuel,
    (forall this h out h',
        Result_unwrapDeep fuel this h = (out, h') ->
        h' = h \/
        (h' = h ++ [OError "Cannot unwrap a None option"] /\
         out = Throw (VRef (length h)))) /\
    (forall this h out h',
        Option_unwrapDeep fuel this h = (out, h') ->
        h' = h \/
        (h' = h ++ [OError "Cannot unwrap a None option"] /\
         out = Throw (VRef (length h)))).
Proof.
  induction fuel as [|fuel [IHr IHo]].
  - split; intros this h out h' E; injection E as <- <-; left; reflexivity.
  - assert (D : forall value h out h',
               deepen fuel value h = (out, h') ->
               h' = h \/
               (h' = h ++ [OError "Cannot unwrap a None option"] /\
                out = Throw (VRef (length h)))).
    { intros value h out h' E.
      destruct (deepen_cases fuel value h)
        as [(r & _ & Er) | [(o & _ & _ & Eo) | (_ & En)]].
      - rewrite Er in E. eauto.
      - rewrite Eo in E. eauto.
      - rewrite En in E. injection E as <- <-. left. reflexivity. }
    split; intros this h out h' E.
    + rewrite Result_unwrapDeep_S in E.
      destruct (Result_unwrap_cases this h) as [[_ U] | [_ U]].
      * rewrite (bind_Normal _ _ _ _ _ U) in E. eauto.
      * rewrite (bind_Throw _ _ _ _ _ U) in E. injection E as <- <-.
        left. reflexivity.
    + rewrite Option_unwrapDeep_S in E.
      destruct (Option_unwrap_cases this h) as [[_ U] | [_ U]].
      * rewrite (bind_Normal _ _ _ _ _ U) in E. eauto.
      * rewrite (bind_Throw _ _ _ _ _ U) in E. injection E as <- <-.
        right. split; reflexivity.
Qed.

Lemma unwrapDeep_allocates_at_most_one_Error_witness :
  let h := [OOption (mkOption "none" undefined)] in
  let h' := [OOption (mkOption "none" undefined);
             OError "Cannot unwrap a None option"] in
  h' = h \/
  (h' = h ++ [OError "Cannot unwrap a None option"] /\
   Throw (VRef 1) = @Throw val (VRef (length h))).
Proof.
  intros h h'.
  exact (proj1 (unwrapDeep_allocates_at_most_one_Error 2)
           (mkResult "ok" (VRef 0) undefined) h (Throw (VRef 1)) h' eq_refl).
Defined.

(* ===================================================================== *)
(** ** unwrapDeep through Ok and Some layers *)
(* ===================================================================== *)

(** Unwrapping the layers of a nesting comes down to [deepen] on what the
    nesting was built around, on the heap the nesting left and on every
    larger one. *)
Lemma nest_deepen_payload ls :
  forall c0 h,
    val_in_heap h c0 ->
    exists c ext,
      nest ls c0 h = (Normal c, h ++ ext) /\
      val_in_heap (h ++ ext) c /\
      length ext = length ls /\
      (~ not_container h c0 -> ~ not_container (h ++ ext) c) /\
      forall fuel ext2,
        deepen (length ls + fuel) c ((h ++ ext) ++ ext2)
        = deepen fuel c0 ((h ++ ext) ++ ext2).
Proof.
  induction ls as [|l ls IH]; intros c0 h Hv.
  - exists c0, []. rewrite app_nil_r.
    split; [reflexivity|]. split; [exact Hv|]. split; [reflexivity|].
    split; [auto|]. intros fuel ext2. reflexivity.
  - destruct (IH c0 h Hv) as (c & ext & En & Hc & Hlen & _ & Hd).
    set (h1 := h ++ ext) in *.
    assert (Hnew : forall o, val_in_heap (h1 ++ [o]) (VRef (length h1))).
    { intros o. unfold val_in_heap. simpl. rewrite length_app. simpl. lia. }
    exists (VRef (length h1)).
    destruct l.
    + exists (ext ++ [OResult (mkResult "ok" c undefined)]).
      rewrite app_assoc. fold h1.
      split; [|split; [|split; [|split]]].
      * simpl. rewrite (bind_Normal _ _ _ _ _ En). apply Result_ok_run.
      * apply Hnew.
      * rewrite length_app. simpl. lia.
      * intros _ [NR _]. rewrite as_Result_alloc in NR. discriminate NR.
      * intros fuel ext2. simpl length. simpl Nat.add.
        rewrite (deepen_Result _ _ _ (mkResult "ok" c undefined)).
        2:{ rewrite as_Result_ext by apply Hnew. apply as_Result_alloc. }
        rewrite Result_unwrapDeep_S.
        rewrite (bind_Normal _ _ _ c
                   ((h1 ++ [OResult (mkResult "ok" c undefined)]) ++ ext2))
          by reflexivity.
        rewrite <- app_assoc. apply Hd.
    + exists (ext ++ [OOption (mkOption "some" c)]).
      rewrite app_assoc. fold h1.
      split; [|split; [|split; [|split]]].
      * simpl. rewrite (bind_Normal _ _ _ _ _ En). apply Option_some_run.
      * apply Hnew.
      * rewrite length_app. simpl. lia.
      * intros _ [_ NO]. rewrite as_Option_alloc in NO. discriminate NO.
      * intros fuel ext2. simpl length. simpl Nat.add.
        rewrite (deepen_Option _ _ _ (mkOption "some" c)).
        2:{ rewrite as_Result_ext by apply Hnew.
            apply as_Result_alloc_Option. }
        2:{ rewrite as_Option_ext by apply Hnew. apply as_Option_alloc. }
        rewrite Option_unwrapDeep_S.
        rewrite (bind_Normal _ _ _ c
                   ((h1 ++ [OOption (mkOption "some" c)]) ++ ext2))
          by reflexivity.
        rewrite <- app_assoc. apply Hd.
Qed.

Lemma container_ext h ext c :
  ~ not_container h c -> ~ not_container (h ++ ext) c.
Proof.
  intros C [NR NO]. apply C.
  destruct (as_Result h c) as [r|] eqn:ER.
  - rewrite as_Result_ext in NR by eauto using as_Result_in_heap. congruence.
  - destruct (as_Option h c) as [o|] eqn:EO.
    + rewrite as_Option_ext in NO by eauto using as_Option_in_heap.
      congruence.
    + split; assumption.
Qed.

Lemma container_in_heap h c : ~ not_container h c -> val_in_heap h c.
Proof.
  intros C.
  destruct (as_Result h c) as [r|] eqn:ER; [eauto using as_Result_in_heap|].
  destruct (as_Option h c) as [o|] eqn:EO; [eauto using as_Option_in_heap|].
  contradiction C. split; assumption.
Qed.

Lemma nest_unwrapDeep_payload ls c0 h :
  ~ not_container h c0 ->
  exists c h',
    nest ls c0 h = (Normal c, h') /\
    length h' = length h + length ls /\
    h `prefix_of` h' /\
    forall fuel, unwrapDeep (length ls + fuel) c h' = unwrapDeep fuel c0 h'.
Proof.
  intros C.
  destruct (nest_deepen_payload ls c0 h (container_in_heap h c0 C))
    as (c & ext & En & _ & Hlen & Hc & Hd).
  exists c, (h ++ ext). split; [exact En|]. split.
  - rewrite length_app. lia.
  - split; [apply prefix_app_r; reflexivity|].
    intros fuel.
    rewrite !unwrapDeep_container by auto using container_ext.
    specialize (Hd fuel []). rewrite !app_nil_r in Hd. exact Hd.
Qed.



(** X13. A failure under Ok and Some layers comes out as it is.  With
    [Result.err(e)] innermost, under any number of layers, [unwrapDeep()]
    throws [e] itself and allocates nothing; with [Option.none()]
    innermost it throws a new "Cannot unwrap a None option" [Error],
    the only object it allocates. *)
Theorem unwrapDeep_throws_innermost_failure :
  (forall ls e h fuel,
      exists h',
        length h' = length h + 1 + length ls /\
        (let* r0 := Result_err e in
         let* c := nest ls r0 in
         unwrapDeep (length ls + S fuel) c) h
        = (Throw e, h')) /\
  (forall ls h fuel,
      exists h',
        length h' = length h + 1 + length ls /\
        (let* o := Option_none in
         let* c := nest ls o in
         unwrapDeep (length ls + S fuel) c) h
        = (Throw (VRef (length h')),
           h' ++ [OError "Cannot unwrap a None option"])).
Proof.
  split.
  - intros ls e h fuel.
    set (h0 := h ++ [OResult (mkResult "error" undefined e)]).
    assert (A0 : as_Result h0 (VRef (length h))
                 = Some (mkResult "error" undefined e))
      by apply as_Result_alloc.
    destruct (nest_unwrapDeep_payload ls (VRef (length h)) h0)
      as (c & h' & En & L & [ext P] & U).
    { intros [NR _]. rewrite A0 in NR. discriminate NR. }
    exists h'. split.
    + rewrite L. unfold h0. rewrite length_app. simpl. lia.
    + rewrite (bind_Normal _ _ _ _ _ (Result_err_run e h)). fold h0.
      rewrite (bind_Normal _ _ _ _ _ En). rewrite U.
      assert (A : as_Result h' (VRef (length h))
                  = Some (mkResult "error" undefined e)).
      { rewrite P. rewrite as_Result_ext; [exact A0|].
        eauto using as_Result_in_heap. }
      unfold unwrapDeep, bind at 1, instanceof_Result. rewrite A.
      reflexivity.
  - intros ls h fuel.
    set (h0 := h ++ [OOption (mkOption "none" undefined)]).
    assert (A0 : as_Option h0 (VRef (length h))
                 = Some (mkOption "none" undefined))
      by apply as_Option_alloc.
    assert (R0 : as_Result h0 (VRef (length h)) = None)
      by apply as_Result_alloc_Option.
    destruct (nest_unwrapDeep_payload ls (VRef (length h)) h0)
      as (c & h' & En & L & [ext P] & U).
    { intros [_ NO]. rewrite A0 in NO. discriminate NO. }
    exists h'. split.
    + rewrite L. unfold h0. rewrite length_app. simpl. lia.
    + rewrite (bind_Normal _ _ _ _ _ (Option_none_run h)). fold h0.
      rewrite (bind_Normal _ _ _ _ _ En). rewrite U.
      assert (V : val_in_heap h0 (VRef (length h)))
        by eauto using as_Option_in_heap.
      assert (A : as_Option h' (VRef (length h))
                  = Some (mkOption "none" undefined)).
      { rewrite P. rewrite as_Option_ext; [exact A0 | exact V]. }
      assert (R : as_Result h' (VRef (length h)) = None).
      { rewrite P. rewrite as_Result_ext; [exact R0 | exact V]. }
      unfold unwrapDeep, bind at 1, instanceof_Result. rewrite R.
      rewrite (Option_call_known _ _ _ _ A). reflexivity.
Qed.

(* ===================================================================== *)
(** ** fromPromise followed by unwrap *)
(* ===================================================================== *)

(** X14. [(await Result.fromPromise(p)).unwrap()] ends as [await p] does:
    it returns the value [p] fulfils with, it throws the reason [p] rejects
    with, and it never resumes when [p] never settles.  A settled promise
    costs one Result object, a pending one nothing; the promise returned by
    [fromPromise] is never rejected. *)
Theorem Result_fromPromise_unwrap_is_await :
  forall p h,
    fst ((let* q := Result_fromPromise p in
          let* r := await q in
          Result_call r Result_unwrap) h)
    = fst (await p h) /\
    (exists q h',
        Result_fromPromise p h = (Normal q, h') /\
        (forall e, q <> Rejected e) /\
        (q = Pending <-> p = Pending) /\
        length h' = length h + (match p with Pending => 0 | _ => 1 end)).
Proof.
  intros [v | e |] h.
  - split.
    + rewrite (bind_Normal _ _ _ _ _ (Result_fromPromise_Fulfilled v h)).
      unfold await. rewrite (bind_Normal (ret _) _ _ _ _ eq_refl).
      rewrite Result_call_alloc. reflexivity.
    + eexists _, _. split; [apply Result_fromPromise_Fulfilled|].
      split; [discriminate|]. split; [split; discriminate|].
      rewrite length_app. reflexivity.
  - split.
    + rewrite (bind_Normal _ _ _ _ _ (Result_fromPromise_Rejected e h)).
      unfold await. rewrite (bind_Normal (ret _) _ _ _ _ eq_refl).
      rewrite Result_call_alloc. reflexivity.
    + eexists _, _. split; [apply Result_fromPromise_Rejected|].
      split; [discriminate|]. split; [split; discriminate|].
      rewrite length_app. reflexivity.
  - split; [reflexivity|].
    exists Pending, h. split; [reflexivity|].
    split; [discriminate|]. split; [split; reflexivity|]. lia.
Qed.

(* ===================================================================== *)
(** ** The heap stays bottom-up *)
(* ===================================================================== *)

Lemma val_below_in_heap (h : heap) a v :
  val_below a v -> a <= length h -> val_in_heap h v.
Proof. destruct v; simpl; auto. unfold val_in_heap. simpl. lia. Qed.

Lemma well_formed_after_alloc h o :
  bottom_up h -> obj_below (length h) o -> well_formed_after (alloc o) h.
Proof.
  intros B Ho. split; simpl.
  - apply bottom_up_alloc; assumption.
  - unfold val_in_heap. simpl. rewrite length_app. simpl. lia.
Qed.

Lemma well_formed_after_throw_new_Error h message :
  bottom_up h ->
  well_formed_after (let* e := new_Error message in throw e) h.
Proof.
  intros B. split; simpl.
  - apply bottom_up_alloc; [exact B | exact I].
  - unfold val_in_heap. simpl. rewrite length_app. simpl. lia.
Qed.

Lemma well_formed_after_bind_alloc (fn : val -> M val) x (k : val -> obj) h :
  well_formed_after (fn x) h ->
  (forall u h1, val_in_heap h1 u -> obj_below (length h1) (k u)) ->
  well_formed_after (let* u := fn x in alloc (k u)) h.
Proof.
  intros [B V] Hk. unfold well_formed_after, bind.
  destruct (fn x h) as [[u | e |] h1]; simpl in *.
  - apply (well_formed_after_alloc h1 (k u) B). apply Hk. exact V.
  - split; assumption.
  - split; [exact B | exact I].
Qed.

Lemma well_formed_after_unwrapDeep h :
  bottom_up h ->
  forall fuel,
    (forall a this, h !! a = Some (OResult this) ->
                    well_formed_after (Result_unwrapDeep fuel this) h) /\
    (forall a this, h !! a = Some (OOption this) ->
                    well_formed_after (Option_unwrapDeep fuel this) h).
Proof.
  intros B. induction fuel as [|fuel [IHr IHo]].
  - split; intros a this L; (split; [exact B | exact I]).
  - assert (D : forall value, val_in_heap h value ->
                              well_formed_after (deepen fuel value) h).
    { intros value Hv. unfold well_formed_after.
      destruct (deepen_cases fuel value h)
        as [(r & Ar & ->) | [(o & _ & Ao & ->) | (_ & ->)]].
      - apply as_Result_lookup in Ar as (a' & -> & L). apply (IHr a' r L).
      - apply as_Option_lookup in Ao as (a' & -> & L). apply (IHo a' o L).
      - split; [exact B | exact Hv]. }
    split; intros a this L; pose proof (lookup_lt_Some _ _ _ L) as Hlt;
      pose proof (B a _ L) as Hb; simpl in Hb.
    + unfold well_formed_after. rewrite Result_unwrapDeep_S.
      destruct (Result_unwrap_cases this h) as [[_ U] | [_ U]].
      * rewrite (bind_Normal _ _ _ _ _ U). apply D.
        apply (val_below_in_heap h a); [tauto | lia].
      * rewrite (bind_Throw _ _ _ _ _ U). split; [exact B|]. simpl.
        apply (val_below_in_heap h a); [tauto | lia].
    + unfold well_formed_after. rewrite Option_unwrapDeep_S.
      destruct (Option_unwrap_cases this h) as [[_ U] | [_ U]].
      * rewrite (bind_Normal _ _ _ _ _ U). apply D.
        apply (val_below_in_heap h a); [exact Hb | lia].
      * rewrite (bind_Throw _ _ _ _ _ U). split; simpl.
        -- apply bottom_up_alloc; [exact B | exact I].
        -- unfold val_in_heap. simpl. rewrite length_app. simpl. lia.
Qed.

(** X15. The operations keep the heap bottom-up, the invariant under which
    [unwrapDeep] terminates: started on a bottom-up heap with values of
    that heap, every operation leaves a bottom-up heap, and what it returns
    or throws is a value of it.  So no nesting built with the two classes
    ever refers to itself.  For [map], [mapErr] and [Option.map] this holds
    when the callback does the same. *)
Theorem operations_keep_heap_bottom_up :
  forall h,
    bottom_up h ->
    (forall v, val_in_heap h v -> well_formed_after (Result_ok v) h) /\
    (forall e, val_in_heap h e -> well_formed_after (Result_err e) h) /\
    (forall v, val_in_heap h v -> well_formed_after (Option_some v) h) /\
    well_formed_after Option_none h /\
    (forall maybe, val_in_heap h maybe ->
                   well_formed_after (Option_from maybe) h) /\
    (forall a this, h !! a = Some (OResult this) ->
                    well_formed_after (Result_unwrap this) h /\
                    well_formed_after (Result_unwrapErr this) h) /\
    (forall a this, h !! a = Some (OOption this) ->
                    well_formed_after (Option_unwrap this) h) /\
    (forall fuel a this, h !! a = Some (OResult this) ->
                         well_formed_after (Result_unwrapDeep fuel this) h) /\
    (forall fuel a this, h !! a = Some (OOption this) ->
                         well_formed_after (Option_unwrapDeep fuel this) h) /\
    (forall fn a this,
        h !! a = Some (OResult this) ->
        (forall x, val_in_heap h x -> well_formed_after (fn x) h) ->
        well_formed_after (Result_map fn this) h /\
        well_formed_after (Result_mapErr fn this) h) /\
    (forall fn a this,
        h !! a = Some (OOption this) ->
        (forall x, val_in_heap h x -> well_formed_after (fn x) h) ->
        well_formed_after (Option_map fn this) h).
Proof.
  intros h B.
  assert (Fr : forall a this, h !! a = Some (OResult this) ->
                 val_in_heap h (Result_value this) /\
                 val_in_heap h (Result_error this)).
  { intros a this L. pose proof (lookup_lt_Some _ _ _ L) as Hlt.
    destruct (B a _ L) as [Hv He].
    split; apply (val_below_in_heap h a); auto; lia. }
  assert (Fo : forall a this, h !! a = Some (OOption this) ->
                 val_in_heap h (Option_value this)).
  { intros a this L. pose proof (lookup_lt_Some _ _ _ L) as Hlt.
    apply (val_below_in_heap h a); [exact (B a _ L) | lia]. }
  assert (Kok : forall u (h1 : heap),
             val_in_heap h1 u ->
             obj_below (length h1) (OResult (Result_constructor "ok" u undefined))).
  { intros u h1 Hu. simpl. rewrite default_param_Never. split; [exact Hu | exact I]. }
  assert (Kerr : forall u (h1 : heap),
             val_in_heap h1 u ->
             obj_below (length h1) (OResult (Result_constructor "error" Never u))).
  { intros u h1 Hu. simpl. rewrite default_param_Never. split; [exact I | exact Hu]. }
  assert (Ksome : forall u (h1 : heap),
             val_in_heap h1 u ->
             obj_below (length h1) (OOption (Option_constructor "some" u))).
  { intros u h1 Hu. simpl. rewrite default_param_Never. exact Hu. }
  assert (None_ok : well_formed_after Option_none h).
  { apply well_formed_after_alloc; [exact B | exact I]. }
  split; [|split; [|split; [|split; [|split; [|split; [|split; [|split;
    [|split; [|split]]]]]]]]].
  - intros v Hv. apply well_formed_after_alloc; auto.
  - intros e He. apply well_formed_after_alloc; auto.
  - intros v Hv. apply well_formed_after_alloc; auto.
  - exact None_ok.
  - intros maybe Hm. unfold Option_from.
    destruct (strict_equal maybe undefined || strict_equal maybe null);
      [exact None_ok | apply well_formed_after_alloc; auto].
  - intros a this L. destruct (Fr a this L) as [Hv He].
    split.
    + unfold Result_unwrap. destruct (Result_isOk this);
        (split; [exact B | assumption]).
    + unfold Result_unwrapErr. destruct (Result_isErr this).
      * split; [exact B | exact He].
      * apply well_formed_after_throw_new_Error. exact B.
  - intros a this L. unfold Option_unwrap. destruct (Option_isSome this).
    + split; [exact B | exact (Fo a this L)].
    + apply well_formed_after_throw_new_Error. exact B.
  - intros fuel. apply (proj1 (well_formed_after_unwrapDeep h B fuel)).
  - intros fuel. apply (proj2 (well_formed_after_unwrapDeep h B fuel)).
  - intros fn a this L Hfn. destruct (Fr a this L) as [Hv He]. split.
    + unfold Result_map. destruct (Result_isOk this).
      * apply (well_formed_after_bind_alloc fn _
                 (fun u => OResult (Result_constructor "ok" u undefined)));
          auto.
      * apply well_formed_after_alloc; auto.
    + unfold Result_mapErr. destruct (Result_isErr this).
      * apply (well_formed_after_bind_alloc fn _
                 (fun u => OResult (Result_constructor "error" Never u)));
          auto.
      * apply well_formed_after_alloc; auto.
  - intros fn a this L Hfn. unfold Option_map.
    destruct (Option_isSome this).
    + apply (well_formed_after_bind_alloc fn _
               (fun u => OOption (Option_constructor "some" u)));
        eauto.
    + exact None_ok.
Qed.

Lemma operations_keep_heap_bottom_up_witness :
  bottom_up [OError "boom"] /\
  well_formed_after (Result_err (VRef 0)) [OError "boom"].
Proof.
  assert (B : bottom_up [OError "boom"]).
  { apply (bottom_up_alloc []); [apply bottom_up_nil | exact I]. }
  split; [exact B|].
  destruct (operations_keep_heap_bottom_up [OError "boom"] B)
    as (_ & Herr & _).
  apply Herr. simpl. lia.
Defined.
